(** * docker-monitor: the stats pipeline, container resolution and the
      poll cycle, embedded from the Go sources

    - [pkg/stats/stats.go]: [GetContainerStats], [calculateCPUPercentage],
      [FetchContainerStatsParallel]
    - [pkg/container/container.go]: [FindContainer]
    - [pkg/utils/utils.go]: [PrintStatsHorizontally], [PrintStatsVertically]
    - [main.go]: the body of the monitoring loop

    Go's [float64] is Rocq's primitive binary64 [float]; [uint64] and [int]
    values are integers in [Z] with their range stated where it matters;
    Go strings are [string]; a Go map is a [gmap]; a slice is a [list]. *)

From Stdlib Require Import ZArith Floats Lia String Ascii.
From stdpp Require Import base option list gmap strings relations.

Local Open Scope Z_scope.

(** ** Numeric conversions *)

(** The values a Go [uint64] can hold. *)
Definition uint64 (z : Z) : Prop := 0 <= z < 2 ^ 64.

(** Go's conversion [float64(n)] of an integer: the nearest binary64 value,
    ties to even. *)
Definition float64 (z : Z) : float :=
  SF2Prim (binary_normalize prec emax z 0 false).

(** ** Data model *)

Definition error := string.

(** The fields of the Docker API's [types.Container] that this program
    reads. *)
Module types.
Record Container := {
  ID : string;
  Names : list string;
  State : string
}.

(** [types.Container{}] *)
Definition zero : Container := {| ID := ""; Names := []; State := "" |}.
End types.

(** The fields of the Docker API's [container.StatsResponse] that the
    decoder reads. *)
Module container.
Record CPUUsageT := {
  TotalUsage : Z;
  PercpuUsage : list Z
}.

Record CPUStatsT := {
  CPUUsage : CPUUsageT;
  SystemUsage : Z
}.

Record MemoryStatsT := {
  Usage : Z;
  Limit : Z
}.

Record NetworkStats := {
  RxBytes : Z;
  TxBytes : Z
}.

(** The zero value a Go map lookup yields for a missing key. *)
Definition NetworkStats_zero : NetworkStats := {| RxBytes := 0; TxBytes := 0 |}.

Record StatsResponse := {
  CPUStats : CPUStatsT;
  PreCPUStats : CPUStatsT;
  MemoryStats : MemoryStatsT;
  Networks : gmap string NetworkStats
}.

Record ListOptions := { All : bool }.
End container.

(** The anonymous struct of five [float64] fields that [GetContainerStats]
    returns and [ContainerStat] embeds. *)
Record Sample := {
  CPUPercentage : float;
  MemoryUsage : float;
  MemoryLimit : float;
  NetworkRx : float;
  NetworkTx : float
}.

Definition Sample_zero : Sample :=
  {| CPUPercentage := 0; MemoryUsage := 0; MemoryLimit := 0;
     NetworkRx := 0; NetworkTx := 0 |}.

Record ContainerStat := {
  Container : types.Container;
  Stats : Sample
}.

(** The element [make([]ContainerStat, n)] fills the slice with. *)
Definition ContainerStat_zero : ContainerStat :=
  {| Container := types.zero; Stats := Sample_zero |}.

(** ** The runtime client

    What the Docker daemon answers is outside the program; the client is
    the pair of read operations the monitor uses.  The body of a stats
    answer is kept with the outcome of its JSON decoding. *)

Inductive Body :=
  | Malformed (e : error)
  | Json (s : container.StatsResponse).

Record Client := {
  ContainerList : container.ListOptions -> list types.Container * option error;
  ContainerStats : string -> Body * option error
}.

(** [json.NewDecoder(stats.Body).Decode(&statsJSON)] *)
Definition Decode (b : Body) : container.StatsResponse * option error :=
  match b with
  | Malformed e =>
      ({| container.CPUStats :=
            {| container.CPUUsage :=
                 {| container.TotalUsage := 0; container.PercpuUsage := [] |};
               container.SystemUsage := 0 |};
          container.PreCPUStats :=
            {| container.CPUUsage :=
                 {| container.TotalUsage := 0; container.PercpuUsage := [] |};
               container.SystemUsage := 0 |};
          container.MemoryStats := {| container.Usage := 0; container.Limit := 0 |};
          container.Networks := ∅ |}, Some e)
  | Json s => (s, None)
  end.

(** ** pkg/stats/stats.go *)

Definition calculateCPUPercentage (stats : container.StatsResponse) : float :=
  let perCpuUsageLen :=
    Z.of_nat (length (container.PercpuUsage (container.CPUUsage (container.CPUStats stats)))) in
  let perCpuUsageLen := if perCpuUsageLen =? 0 then 7 else perCpuUsageLen in
  let cpuDelta :=
    (float64 (container.TotalUsage (container.CPUUsage (container.CPUStats stats)))
     - float64 (container.TotalUsage (container.CPUUsage (container.PreCPUStats stats))))%float in
  let systemDelta :=
    (float64 (container.SystemUsage (container.CPUStats stats))
     - float64 (container.SystemUsage (container.PreCPUStats stats)))%float in
  let cpuPercent := ((cpuDelta / systemDelta) * float64 perCpuUsageLen * 100)%float in
  cpuPercent.

(** [statsJSON.Networks[key]]: the entry, or the zero value when the key is
    missing (also when the map is nil). *)
Definition map_index (m : gmap string container.NetworkStats) (key : string)
  : container.NetworkStats :=
  default container.NetworkStats_zero (m !! key).

(** The value and the error of the Go function.  The deferred
    [Body.Close()] only logs, and is left out. *)
Definition GetContainerStats (cli : Client) (containerID : string)
  : Sample * option error :=
  match ContainerStats cli containerID with
  | (_, Some err) => (Sample_zero, Some err)
  | (body, None) =>
      match Decode body with
      | (_, Some err) => (Sample_zero, Some err)
      | (statsJSON, None) =>
          let cpuPercent := calculateCPUPercentage statsJSON in
          let memoryUsage :=
            (float64 (container.Usage (container.MemoryStats statsJSON)) / 1024 / 1024)%float in
          let memoryLimit :=
            (float64 (container.Limit (container.MemoryStats statsJSON)) / 1024 / 1024)%float in
          let networkRx :=
            (float64 (container.RxBytes (map_index (container.Networks statsJSON) "eth0"))
             / 1024 / 1024)%float in
          let networkTx :=
            (float64 (container.TxBytes (map_index (container.Networks statsJSON) "eth0"))
             / 1024 / 1024)%float in
          ({| CPUPercentage := cpuPercent;
              MemoryUsage := memoryUsage;
              MemoryLimit := memoryLimit;
              NetworkRx := networkRx;
              NetworkTx := networkTx |}, None)
      end
  end.

(** The calculator as the specification words it, with the guard it asks
    for: the deltas of the two counter pairs, the fallback core count 7
    for a per-core count of 0, and 0.0 when the system delta is zero. *)
Definition cpuPercentage (currentCPUTime previousCPUTime currentSystemTime
    previousSystemTime perCoreCount : Z) : float :=
  let cpuDelta := (float64 currentCPUTime - float64 previousCPUTime)%float in
  let systemDelta := (float64 currentSystemTime - float64 previousSystemTime)%float in
  let perCoreCount := if perCoreCount =? 0 then 7 else perCoreCount in
  if is_zero systemDelta then 0%float
  else ((cpuDelta / systemDelta) * float64 perCoreCount * 100)%float.

(** The snapshot with the given CPU and system counters (current and
    previous), per-core entries, memory counters and network map. *)
Definition snapshot (cur prev syscur sysprev : Z) (percpu : list Z)
    (usage limit : Z) (nets : gmap string container.NetworkStats)
  : container.StatsResponse :=
  {| container.CPUStats :=
       {| container.CPUUsage :=
            {| container.TotalUsage := cur; container.PercpuUsage := percpu |};
          container.SystemUsage := syscur |};
     container.PreCPUStats :=
       {| container.CPUUsage :=
            {| container.TotalUsage := prev; container.PercpuUsage := [] |};
          container.SystemUsage := sysprev |};
     container.MemoryStats := {| container.Usage := usage; container.Limit := limit |};
     container.Networks := nets |}.


(** The value [FetchContainerStatsParallel] leaves at a container's
    position once all tasks are done: what the task for [c] sends, or the
    zero value the slice was made with when the task returned early. *)
Definition slot (cli : Client) (c : types.Container) : ContainerStat :=
  match GetContainerStats cli (types.ID c) with
  | (stats, None) => {| Container := c; Stats := stats |}
  | (_, Some _) => ContainerStat_zero
  end.

(** The stats request for [c] fails, or its body does not decode. *)
Definition fetch_fails (cli : Client) (c : types.Container) : Prop :=
  (exists body err, ContainerStats cli (types.ID c) = (body, Some err))
  \/ (exists err, ContainerStats cli (types.ID c) = (Malformed err, None)).

(** *** FetchContainerStatsParallel as a machine

    The function starts one goroutine per container and one more that
    closes the channel; the main goroutine receives until the channel is
    closed.  Each goroutine is a program counter, and one step runs one
    statement of one goroutine.  Which goroutine runs next is the
    scheduler's choice: an [Action]. *)

(** The element type of [statsChan]. *)
Record Msg := {
  Index : nat;
  Stat : ContainerStat
}.

(** [log.Printf("Error fetching stats for container %s: %v", c.ID, err)] *)
Definition fetch_error_line (c : types.Container) (err : error) : string :=
  "Error fetching stats for container " +:+ types.ID c +:+ ": " +:+ err.

(** Where the goroutine [go func(i int, c types.Container)] stands. *)
Inductive TaskPc :=
  | TFetch                  (* before [GetContainerStats(ctx, cli, c.ID)] *)
  | TLog (err : error)      (* [err != nil]: before [log.Printf] and [return] *)
  | TSend (stats : Sample)  (* before [statsChan <- ...] *)
  | TDeferred               (* returning: the deferred [wg.Done()] *)
  | TExited.

Record Task := {
  t_i : nat;
  t_c : types.Container;
  t_pc : TaskPc
}.

(** Where the goroutine [go func() { wg.Wait(); close(statsChan) }()]
    stands. *)
Inductive CloserPc :=
  | CNotStarted
  | CWait
  | CClose
  | CExited.

(** Where the calling goroutine stands. *)
Inductive MainPc :=
  | MRange (index : nat)                      (* head of the [range] loop *)
  | MGo (index : nat) (c : types.Container)   (* after [wg.Add(1)], before [go] *)
  | MGoCloser                                 (* before the second [go] *)
  | MMake                                     (* before [results := make(...)] *)
  | MRecv                                     (* head of [for result := range statsChan] *)
  | MReturn                                   (* [return results] *)
  | MPanic.                                   (* a runtime panic in any goroutine *)

Record Machine := {
  main_pc : MainPc;
  tasks : list Task;
  closer_pc : CloserPc;
  wg : nat;
  statsChan : list Msg;
  closed : bool;
  results : list ContainerStat;
  log : list string
}.

Inductive Action :=
  | AMain
  | ATask (i : nat)
  | ACloser.

Definition set_main (pc : MainPc) (s : Machine) : Machine :=
  {| main_pc := pc; tasks := tasks s; closer_pc := closer_pc s; wg := wg s;
     statsChan := statsChan s; closed := closed s; results := results s;
     log := log s |}.

Definition set_task (i : nat) (t : Task) (pc : TaskPc) (s : Machine) : Machine :=
  {| main_pc := main_pc s;
     tasks := <[i := {| t_i := t_i t; t_c := t_c t; t_pc := pc |}]> (tasks s);
     closer_pc := closer_pc s; wg := wg s; statsChan := statsChan s;
     closed := closed s; results := results s; log := log s |}.

Section Parallel.
Variable cli : Client.
Variable containers : list types.Container.

(** [var wg sync.WaitGroup; statsChan := make(chan ..., len(containers))] *)
Definition init : Machine :=
  {| main_pc := MRange 0; tasks := []; closer_pc := CNotStarted; wg := 0;
     statsChan := []; closed := false; results := []; log := [] |}.

Definition step_main (s : Machine) : option Machine :=
  match main_pc s with
  | MRange index =>
      match containers !! index with
      | Some c =>
          Some {| main_pc := MGo index c; tasks := tasks s;
                  closer_pc := closer_pc s; wg := S (wg s);
                  statsChan := statsChan s; closed := closed s;
                  results := results s; log := log s |}
      | None => Some (set_main MGoCloser s)
      end
  | MGo index c =>
      Some {| main_pc := MRange (S index);
              tasks := tasks s ++ [{| t_i := index; t_c := c; t_pc := TFetch |}];
              closer_pc := closer_pc s; wg := wg s;
              statsChan := statsChan s; closed := closed s;
              results := results s; log := log s |}
  | MGoCloser =>
      Some {| main_pc := MMake; tasks := tasks s; closer_pc := CWait;
              wg := wg s; statsChan := statsChan s; closed := closed s;
              results := results s; log := log s |}
  | MMake =>
      Some {| main_pc := MRecv; tasks := tasks s; closer_pc := closer_pc s;
              wg := wg s; statsChan := statsChan s; closed := closed s;
              results := replicate (length containers) ContainerStat_zero;
              log := log s |}
  | MRecv =>
      match statsChan s with
      | result :: rest =>
          if decide (Index result < length (results s))%nat then
            Some {| main_pc := MRecv; tasks := tasks s;
                    closer_pc := closer_pc s; wg := wg s;
                    statsChan := rest; closed := closed s;
                    results := <[Index result := Stat result]> (results s);
                    log := log s |}
          else Some (set_main MPanic s)
      | [] => if closed s then Some (set_main MReturn s) else None
      end
  | MReturn => None
  | MPanic => None
  end.

Definition step_task (i : nat) (s : Machine) : option Machine :=
  match tasks s !! i with
  | None => None
  | Some t =>
      match t_pc t with
      | TFetch =>
          match GetContainerStats cli (types.ID (t_c t)) with
          | (_, Some err) => Some (set_task i t (TLog err) s)
          | (stats, None) => Some (set_task i t (TSend stats) s)
          end
      | TLog err =>
          Some {| main_pc := main_pc s;
                  tasks := <[i := {| t_i := t_i t; t_c := t_c t; t_pc := TDeferred |}]> (tasks s);
                  closer_pc := closer_pc s; wg := wg s;
                  statsChan := statsChan s; closed := closed s;
                  results := results s;
                  log := log s ++ [fetch_error_line (t_c t) err] |}
      | TSend stats =>
          if closed s then Some (set_main MPanic s)
          else if decide (length (statsChan s) < length containers)%nat then
            Some {| main_pc := main_pc s;
                    tasks := <[i := {| t_i := t_i t; t_c := t_c t; t_pc := TDeferred |}]> (tasks s);
                    closer_pc := closer_pc s; wg := wg s;
                    statsChan := statsChan s ++
                      [{| Index := t_i t;
                          Stat := {| Container := t_c t; Stats := stats |} |}];
                    closed := closed s; results := results s; log := log s |}
          else None
      | TDeferred =>
          match wg s with
          | O => Some (set_main MPanic s)
          | S n =>
              Some {| main_pc := main_pc s;
                      tasks := <[i := {| t_i := t_i t; t_c := t_c t; t_pc := TExited |}]> (tasks s);
                      closer_pc := closer_pc s; wg := n;
                      statsChan := statsChan s; closed := closed s;
                      results := results s; log := log s |}
          end
      | TExited => None
      end
  end.

Definition step_closer (s : Machine) : option Machine :=
  match closer_pc s with
  | CNotStarted => None
  | CWait =>
      match wg s with
      | O => Some {| main_pc := main_pc s; tasks := tasks s; closer_pc := CClose;
                     wg := wg s; statsChan := statsChan s; closed := closed s;
                     results := results s; log := log s |}
      | S _ => None
      end
  | CClose =>
      if closed s then Some (set_main MPanic s)
      else Some {| main_pc := main_pc s; tasks := tasks s; closer_pc := CExited;
                   wg := wg s; statsChan := statsChan s; closed := true;
                   results := results s; log := log s |}
  | CExited => None
  end.

(** One step of the goroutine the scheduler picked; [None] when that
    goroutine is blocked, not started or finished, and after a panic. *)
Definition fire (a : Action) (s : Machine) : option Machine :=
  match main_pc s with
  | MPanic => None
  | _ =>
      match a with
      | AMain => step_main s
      | ATask i => step_task i s
      | ACloser => step_closer s
      end
  end.

(** A run under a schedule, from [s]. *)
Fixpoint exec (sched : list Action) (s : Machine) : option Machine :=
  match sched with
  | [] => Some s
  | a :: sched' =>
      match fire a s with
      | Some s' => exec sched' s'
      | None => None
      end
  end.

(** No goroutine can take a step. *)
Definition halted (s : Machine) : Prop := forall a, fire a s = None.

(** The call under a schedule that runs it to its [return]: the returned
    slice and the lines logged on the way. *)
Definition FetchContainerStatsParallel (sched : list Action)
  : option (list ContainerStat * list string) :=
  match exec sched init with
  | Some s =>
      match main_pc s with
      | MReturn => Some (results s, log s)
      | _ => None
      end
  | None => None
  end.

(** The slice every complete run returns (shown below). *)
Definition collected : list ContainerStat := map (slot cli) containers.

(** The longest a run can be. *)
Definition weight_main (pc : MainPc) : nat :=
  match pc with
  | MRange index => 6 * (length containers - index) + 6
  | MGo index _ => 6 * (length containers - index - 1) + 11
  | MGoCloser => 5
  | MMake => 2
  | MRecv => 1
  | MReturn => 0
  | MPanic => 0
  end.
End Parallel.

Definition weight_task (t : Task) : nat :=
  match t_pc t with
  | TFetch => 4
  | TLog _ => 2
  | TSend _ => 3
  | TDeferred => 1
  | TExited => 0
  end.

Definition weight_closer (pc : CloserPc) : nat :=
  match pc with
  | CNotStarted => 0
  | CWait => 2
  | CClose => 1
  | CExited => 0
  end.

Fixpoint sum_with (f : Task -> nat) (l : list Task) : nat :=
  match l with
  | [] => 0
  | t :: l' => f t + sum_with f l'
  end.

Definition measure (containers : list types.Container) (s : Machine) : nat :=
  weight_main containers (main_pc s) + sum_with weight_task (tasks s)
  + length (statsChan s) + weight_closer (closer_pc s).

(** ** pkg/container/container.go *)

(** Go's [strings.HasPrefix(s, prefix)]:
    [len(s) >= len(prefix) && s[:len(prefix)] == prefix]. *)
Definition HasPrefix (s prefix : string) : bool :=
  (String.length prefix <=? String.length s)%nat
  && String.eqb (substring 0 (String.length prefix) s) prefix.

(** The inner loop of [FindContainer]: [for _, name := range c.Names]. *)
Fixpoint FindContainer_names (names : list string) (containerSpecifier : string)
  : bool :=
  match names with
  | [] => false
  | name :: names' =>
      if String.eqb name containerSpecifier
         || String.eqb name ("/" +:+ containerSpecifier)
      then true
      else FindContainer_names names' containerSpecifier
  end.

(** The outer loop: [for _, c := range containers]. *)
Fixpoint FindContainer_range (containers : list types.Container)
    (containerSpecifier : string) : option types.Container :=
  match containers with
  | [] => None
  | c :: containers' =>
      if HasPrefix (types.ID c) containerSpecifier then Some c
      else if FindContainer_names (types.Names c) containerSpecifier then Some c
      else FindContainer_range containers' containerSpecifier
  end.

(** [fmt.Errorf("container not found: %s", containerSpecifier)] *)
Definition NotFound (containerSpecifier : string) : error :=
  "container not found: " +:+ containerSpecifier.

Definition FindContainer (cli : Client) (containerSpecifier : string)
  : types.Container * option error :=
  match ContainerList cli {| container.All := true |} with
  | (_, Some err) => (types.zero, Some err)
  | (containers, None) =>
      match FindContainer_range containers containerSpecifier with
      | Some c => (c, None)
      | None => (types.zero, Some (NotFound containerSpecifier))
      end
  end.

(** [container.ListOptions{}] *)
Definition ReturnListOptions : container.ListOptions :=
  {| container.All := false |}.

(** What it is for a specifier to name a container, as [FindContainer]
    tests it: a prefix of the identifier, or one of the names, as listed or
    with the leading ['/'] left out by the user. *)
Definition matches (containerSpecifier : string) (c : types.Container) : Prop :=
  (exists rest, types.ID c = containerSpecifier +:+ rest)
  \/ (exists name, name ∈ types.Names c
        /\ (name = containerSpecifier \/ name = "/" +:+ containerSpecifier)).

(** ** pkg/utils/utils.go: the renderer

    A printing function either finishes, having written some lines, or
    panics part-way.  A runtime panic that nothing recovers ends the
    process. *)

Inductive Run (A : Type) :=
  | Done (out : list string) (a : A)
  | Panicked (out : list string) (reason : string).
Arguments Done {A} out a.
Arguments Panicked {A} out reason.

Definition Run_bind {A B} (f : A -> Run B) (m : Run A) : Run B :=
  match m with
  | Done out a =>
      match f a with
      | Done out' b => Done (out ++ out') b
      | Panicked out' r => Panicked (out ++ out') r
      end
  | Panicked out r => Panicked out r
  end.

#[global] Instance Run_mret : MRet Run := fun A a => Done [] a.
#[global] Instance Run_mbind : MBind Run := fun A B f m => Run_bind f m.

Definition fmt_Print (s : string) : Run unit := Done [s] tt.

(** [s[:n]] on a string. *)
Definition slice_to (s : string) (n : nat) : Run string :=
  if decide (n <= String.length s)%nat then Done [] (substring 0 n s)
  else Panicked [] "slice bounds out of range".

(** [l[i]] on a slice. *)
Definition index {A} (l : list A) (i : nat) : Run A :=
  match l !! i with
  | Some a => Done [] a
  | None => Panicked [] "index out of range"
  end.

Definition ESC : string := String (ascii_of_nat 27) "".
Definition LF : string := String (ascii_of_nat 10) "".

(** An argument of a [fmt] call. *)
Inductive Arg :=
  | Str (s : string)
  | Flt (x : float).

Section Renderer.
(** [fmt.Sprintf] and the [SprintFunc]s of the colour package are
    libraries; the renderer is taken over any of them. *)
Variable Sprintf : string -> list Arg -> string.
Variable red green : string -> string.

Definition PrintHeader (action : string) : Run unit :=
  if String.eqb action "container" then
    fmt_Print (Sprintf ("%-46s | %7s | %26s | %12s" +:+ LF)
             [Str "CONTAINER ID / NAME"; Str "CPU %";
              Str "MEM USAGE / LIMIT"; Str "NET I/O"]);;
    fmt_Print (String.concat "" (replicate 100 "-") +:+ LF)
  else if String.eqb action "image" then
    fmt_Print (Sprintf ("%-40s %-20s %-15s" +:+ LF)
             [Str "REPOSITORY"; Str "TAG"; Str "IMAGE ID"]);;
    fmt_Print (String.concat "" (replicate 100 "-") +:+ LF)
  else mret tt.

Definition ClearScreen (verticalFlag : bool) : Run unit :=
  if negb verticalFlag then
    fmt_Print (ESC +:+ "[2;1H");;
    fmt_Print (ESC +:+ "[J")
  else
    fmt_Print (ESC +:+ "[2J");;
    fmt_Print (ESC +:+ "[H").

Definition PrintStatsVertically (c : types.Container) (stats : Sample)
  : Run unit :=
  name ← index (types.Names c) 0;
  fmt_Print (Sprintf (red "Container: " +:+ "%s" +:+ LF) [Str name]);;
  fmt_Print (Sprintf (green "  CPU: " +:+ "%.2f%%" +:+ LF) [Flt (CPUPercentage stats)]);;
  fmt_Print (Sprintf (green "  Memory: " +:+ "%.2f MB / %.2f MB" +:+ LF)
           [Flt (MemoryUsage stats); Flt (MemoryLimit stats)]);;
  fmt_Print (Sprintf (green "  Network I/O: " +:+ "%.2f MB / %.2f MB" +:+ LF)
           [Flt (NetworkRx stats); Flt (NetworkTx stats)]);;
  fmt_Print LF.

Definition ReturnCpuText (usage : float) : string :=
  let text := Sprintf "%.2f" [Flt usage] in
  if decide (6 <= String.length text)%nat then red text else text.

Definition PrintStatsHorizontally (c : types.Container) (stats : Sample)
  : Run unit :=
  let maxIdLength := 12%nat in
  let maxCombinedLength := 60%nat in
  containerID ← slice_to (types.ID c) maxIdLength;
  containerName ← index (types.Names c) 0;
  let combinedField := green containerID +:+ " " +:+ containerName in
  combinedField ←
    (if decide (maxCombinedLength < String.length combinedField)%nat then
       prefix ← slice_to combinedField (maxCombinedLength - 3);
       mret (prefix +:+ "...")
     else mret combinedField);
  let idNameField := Sprintf "%-60s" [Str combinedField] in
  let cpuField := Sprintf "%6s%%" [Str (ReturnCpuText (CPUPercentage stats))] in
  let memField :=
    Sprintf "%9.2f MB /%9.2f MB" [Flt (MemoryUsage stats); Flt (MemoryLimit stats)] in
  let netField :=
    Sprintf "%5.2f MB /%5.2f MB" [Flt (NetworkRx stats); Flt (NetworkTx stats)] in
  let output :=
    Sprintf "%s | %s | %s | %s"
      [Str idNameField; Str cpuField; Str memField; Str netField] in
  fmt_Print (output +:+ LF).

(** ** main.go: one pass through the body of the monitoring loop *)

(** [for _, stat := range s { ... }] *)
Fixpoint print_rows (vertical : bool) (s : list ContainerStat) : Run unit :=
  match s with
  | [] => mret tt
  | stat :: s' =>
      (if vertical then PrintStatsVertically (Container stat) (Stats stat)
       else PrintStatsHorizontally (Container stat) (Stats stat));;
      print_rows vertical s'
  end.

(** From [utils.ClearScreen(flags[0])] to the end of the [range] loop. *)
Definition render (vertical : bool) (s : list ContainerStat) : Run unit :=
  ClearScreen vertical;;
  (if negb vertical then PrintHeader "container" else mret tt);;
  print_rows vertical s.

(** How a pass ends. *)
Inductive Ending :=
  | Continue          (* [continue] without sleeping *)
  | SleepContinue     (* [time.Sleep(1 * time.Second)], then the next pass *)
  | Crash.            (* an unrecovered panic: the process dies *)

Record Pass := {
  ending : Ending;
  stdout : list string;
  stderr : list string
}.

(** The containers a pass monitors, or how the pass ends without any.
    [args] is [flag.Args()]. *)
Definition resolve (cli : Client) (args : list string)
  : list types.Container + Pass :=
  match args with
  | containerSpecifier :: _ =>
      match FindContainer cli containerSpecifier with
      | (_, Some err) =>
          inr {| ending := Continue; stdout := [];
                 stderr := ["Error finding container: " +:+ err] |}
      | (c, None) => inl ([] ++ [c])
      end
  | [] =>
      match ContainerList cli ReturnListOptions with
      | (_, Some err) =>
          inr {| ending := Continue; stdout := [];
                 stderr := ["Error listing containers: " +:+ err] |}
      | (listOfContainers, None) =>
          if decide (length listOfContainers = 0)%nat then
            inr {| ending := SleepContinue; stdout := [];
                   stderr := ["No containers found"] |}
          else inl listOfContainers
      end
  end.

(** One pass, the goroutines of the fetch scheduled by [sched]; [None]
    when [sched] does not run the fetch to its return. *)
Definition pass (cli : Client) (args : list string) (vertical : bool)
    (sched : list Action) : option Pass :=
  match resolve cli args with
  | inr p => Some p
  | inl containers =>
      match FetchContainerStatsParallel cli containers sched with
      | None => None
      | Some (s, logged) =>
          match render vertical s with
          | Done out _ =>
              Some {| ending := SleepContinue; stdout := out; stderr := logged |}
          | Panicked out reason =>
              Some {| ending := Crash; stdout := out;
                      stderr := logged ++ ["panic: " +:+ reason] |}
          end
      end
  end.
End Renderer.

(** ** A worked example: two containers, the first one gone by the time
    its stats are asked for *)

Definition example_gone : types.Container :=
  {| types.ID := "3f2a9c0d1e4b5a6c7d8e"; types.Names := ["/web"];
     types.State := "running" |}.

Definition example_up : types.Container :=
  {| types.ID := "9b8c7d6e5f4a3b2c1d0e"; types.Names := ["/db"];
     types.State := "running" |}.

Definition example_cli : Client :=
  {| ContainerList := fun _ => ([example_gone; example_up], None);
     ContainerStats := fun id =>
       if String.eqb id (types.ID example_gone)
       then (Malformed "", Some "No such container")
       else (Json (snapshot 20 10 200 100 [5; 5; 5; 5] 1048576 2097152
                     {["eth0" := {| container.RxBytes := 3145728;
                                    container.TxBytes := 524288 |}]}), None) |}.

(** A [Sprintf] that leaves its format as it is. *)
Definition example_Sprintf (format : string) (args : list Arg) : string := format.

(** The second task finishes before the first one starts. *)
Definition example_sched : list Action :=
  [AMain; AMain; AMain; AMain; ATask 1; ATask 1; AMain; AMain; ATask 1;
   AMain; ATask 0; ATask 0; ATask 0; ACloser; ACloser; AMain; AMain].

(** A listing of two containers whose identifiers start alike. *)
Definition example_first : types.Container :=
  {| types.ID := "ab12cd34ef56ab12cd34"; types.Names := ["/first"];
     types.State := "running" |}.

Definition example_second : types.Container :=
  {| types.ID := "ab98fe76dc54ab98fe76"; types.Names := ["/second"];
     types.State := "exited" |}.

Definition example_twins : Client :=
  {| ContainerList := fun opts =>
       if container.All opts then ([example_first; example_second], None)
       else ([example_first], None);
     ContainerStats := fun _ => (Malformed "", Some "unused") |}.

(** ** The invariant of the machine *)

Definition exited (t : Task) : bool :=
  match t_pc t with TExited => true | _ => false end.

(** The task is past its send, or past the early return that skips it. *)
Definition past_send (t : Task) : bool :=
  match t_pc t with TDeferred | TExited => true | _ => false end.

Definition live_w (t : Task) : nat := if exited t then 0 else 1.
Definition past_w (t : Task) : nat := if past_send t then 1 else 0.

Definition spawning (pc : MainPc) : bool :=
  match pc with MRange _ | MGo _ _ | MGoCloser => true | _ => false end.

Section Invariant.
Variable cli : Client.
Variable containers : list types.Container.

(** What a task holds in its program counter came from its own fetch. *)
Definition pc_ok (t : Task) : Prop :=
  match t_pc t with
  | TLog err => (GetContainerStats cli (types.ID (t_c t))).2 = Some err
  | TSend stats => GetContainerStats cli (types.ID (t_c t)) = (stats, None)
  | _ => True
  end.

(** What holds of every state a run can reach. *)
Record Inv (s : Machine) : Prop := {
  (* no goroutine has panicked *)
  inv_no_panic : main_pc s <> MPanic;
  (* task [i] was started for container [i] *)
  inv_tasks : forall i t, tasks s !! i = Some t ->
    t_i t = i /\ containers !! i = Some (t_c t) /\ pc_ok t;
  (* the loop has started one task per container it has passed *)
  inv_spawned :
    match main_pc s with
    | MRange index => length (tasks s) = index
    | MGo index c => length (tasks s) = index /\ containers !! index = Some c
    | _ => length (tasks s) = length containers
    end;
  (* the wait group counts the tasks that have not called [Done] *)
  inv_wg :
    wg s = (sum_with live_w (tasks s)
            + match main_pc s with MGo _ _ => 1 | _ => 0 end)%nat;
  (* the channel is closed only after the wait is over *)
  inv_closer :
    match closer_pc s with
    | CNotStarted => spawning (main_pc s) = true /\ closed s = false
    | CWait => spawning (main_pc s) = false /\ closed s = false
    | CClose => spawning (main_pc s) = false /\ closed s = false /\ wg s = O
    | CExited => spawning (main_pc s) = false /\ closed s = true /\ wg s = O
    end;
  inv_returned : main_pc s = MReturn -> closed s = true;
  (* [results] has one slot per container from [make] on *)
  inv_results :
    match main_pc s with
    | MRecv | MReturn => length (results s) = length containers
    | _ => results s = []
    end;
  (* a message in the channel is a task's own index and fetch *)
  inv_chan : forall m, m ∈ statsChan s ->
    exists c stats, containers !! Index m = Some c
      /\ GetContainerStats cli (types.ID c) = (stats, None)
      /\ Stat m = {| Container := c; Stats := stats |};
  (* a slot is still the zero value or already the final one *)
  inv_slots : forall i v, results s !! i = Some v ->
    v = ContainerStat_zero
    \/ exists c, containers !! i = Some c /\ v = slot cli c;
  (* what a task has sent is in the channel or in its slot *)
  inv_delivered : forall i t stats, tasks s !! i = Some t ->
    past_send t = true ->
    GetContainerStats cli (types.ID (t_c t)) = (stats, None) ->
    {| Index := i; Stat := {| Container := t_c t; Stats := stats |} |}
      ∈ statsChan s
    \/ results s !! i = Some {| Container := t_c t; Stats := stats |};
  (* the channel never holds more than was sent: no send blocks *)
  inv_capacity : (length (statsChan s) <= sum_with past_w (tasks s))%nat;
  inv_collected : main_pc s = MReturn -> results s = collected cli containers;
  (* every failed fetch has been logged once its task is past it *)
  inv_log_length : (length (log s) <= sum_with past_w (tasks s))%nat;
  inv_logged : forall i t stats err, tasks s !! i = Some t ->
    past_send t = true ->
    GetContainerStats cli (types.ID (t_c t)) = (stats, Some err) ->
    fetch_error_line (t_c t) err ∈ log s
}.
End Invariant.

(** ** Binary64 rounding, second half *)

(** The second half of [binary_round_aux]: the mantissa after rounding is
    brought back to the format and packed. *)
Definition finish (s : bool) (m1 e1 : Z) : spec_float :=
  let '(mrs, e) := shr_fexp prec emax m1 e1 loc_Exact in
  match shr_m mrs with
  | Z0 => S754_zero s
  | Zpos m => if e <=? emax - prec then S754_finite s m e else S754_infinity s
  | _ => S754_nan
  end.

(** ** pkg/utils/utils.go: listings *)

(** The fields of the Docker API's [image.Summary] that [ListImages]
    reads. *)
Module image.
Record Summary := {
  ID : string;
  RepoTags : list string
}.
End image.

(** Go's [strings.LastIndex(s, sep)] for a separator of one byte: the
    index of its last occurrence in [s], or -1. *)
Fixpoint LastIndex (s : string) (sep : ascii) : Z :=
  match s with
  | EmptyString => -1
  | String b s' =>
      let i := LastIndex s' sep in
      if 0 <=? i then i + 1
      else if Ascii.eqb b sep then 0 else -1
  end.

(** The byte [b] occurs in [s]. *)
Definition contains (b : ascii) (s : string) : Prop :=
  exists pre post, s = pre +:+ String b post.

(** [s[i:]] on a string, for an index within it. *)
Definition slice_from (s : string) (i : nat) : string :=
  substring i (String.length s - i) s.

Definition splitRepoTag (repoTag : string) : string * string :=
  let i := Z.of_nat (String.length repoTag) - 1 in
  if (0 <=? i)
     && bool_decide (String.get (Z.to_nat i) repoTag = Some ":"%char)
  then (substring 0 (Z.to_nat i) repoTag, "latest")
  else
    let i := LastIndex repoTag ":" in
    if 0 <=? i
    then (substring 0 (Z.to_nat i) repoTag, slice_from repoTag (Z.to_nat (i + 1)))
    else (repoTag, "latest").

(** [s[lo:hi]] on a string. *)
Definition slice (s : string) (lo hi : nat) : Run string :=
  if decide (lo <= hi <= String.length s)%nat
  then Done [] (substring lo (hi - lo) s)
  else Panicked [] "slice bounds out of range".

(** What a printing function has written, however it ended. *)
Definition written {A} (r : Run A) : list string :=
  match r with
  | Done out _ => out
  | Panicked out _ => out
  end.

(** [c.State == "exited"] *)
Definition is_exited (c : types.Container) : bool :=
  String.eqb (types.State c) "exited".

(** The loop of [IsThereStoppedContainers]. *)
Fixpoint IsThereStoppedContainers_range (containers : list types.Container)
  : bool :=
  match containers with
  | [] => false
  | c :: containers' =>
      if is_exited c then true
      else IsThereStoppedContainers_range containers'
  end.

Definition IsThereStoppedContainers (cli : Client) : Run bool :=
  let '(containers, err) := ContainerList cli {| container.All := true |} in
  match err with
  | Some e => fmt_Print ("Error listing containers: " +:+ e)
  | None => mret tt
  end;;
  mret (IsThereStoppedContainers_range containers).

Section Listings.
Variable Sprintf : string -> list Arg -> string.
Variable red green : string -> string.

(** The inner loop of [ListImages]: [for _, tag := range i.RepoTags]. *)
Fixpoint ListImages_tags (i : image.Summary) (tags : list string) : Run unit :=
  match tags with
  | [] => mret tt
  | tag :: tags' =>
      let '(repo, tagName) := splitRepoTag tag in
      short ← slice (image.ID i) 7 19;
      fmt_Print (Sprintf ("%-40s %-20s %-15s" +:+ LF)
                   [Str repo; Str tagName; Str short]);;
      ListImages_tags i tags'
  end.

(** The outer loop: [for _, i := range images]. *)
Fixpoint ListImages_range (images : list image.Summary) : Run unit :=
  match images with
  | [] => mret tt
  | i :: images' =>
      ListImages_tags i (image.RepoTags i);;
      ListImages_range images'
  end.

(** The line [ListImages] prints for one tag of an image. *)
Definition image_line (i : image.Summary) (tag : string) : string :=
  Sprintf ("%-40s %-20s %-15s" +:+ LF)
    [Str (splitRepoTag tag).1; Str (splitRepoTag tag).2;
     Str (substring 7 12 (image.ID i))].

(** [ListImages], given what [cli.ImageList] answers. *)
Definition ListImages (ImageList : list image.Summary * option error)
  : Run (option error) :=
  match ImageList with
  | (_, Some err) => mret (Some ("error listing images: " +:+ err))
  | (images, None) => ListImages_range images;; mret None
  end.

(** The row [PrintStatsHorizontally] prints when it does not panic, given
    the field that holds identifier and name. *)
Definition stats_row (combinedField : string) (stats : Sample) : string :=
  Sprintf "%s | %s | %s | %s"
    [Str (Sprintf "%-60s" [Str combinedField]);
     Str (Sprintf "%6s%%" [Str (ReturnCpuText Sprintf red (CPUPercentage stats))]);
     Str (Sprintf "%9.2f MB /%9.2f MB"
            [Flt (MemoryUsage stats); Flt (MemoryLimit stats)]);
     Str (Sprintf "%5.2f MB /%5.2f MB"
            [Flt (NetworkRx stats); Flt (NetworkTx stats)])]
  +:+ LF.

(** The loop of [ListStoppedContainers]. *)
Fixpoint ListStoppedContainers_range (containers : list types.Container)
  : Run unit :=
  match containers with
  | [] => mret tt
  | c :: containers' =>
      (if is_exited c
       then PrintStatsHorizontally Sprintf red green c Sample_zero
       else mret tt);;
      ListStoppedContainers_range containers'
  end.

(** [ListStoppedContainers] lists the containers itself and then once more
    through [IsThereStoppedContainers]; the client answers both times
    alike. *)
Definition ListStoppedContainers (cli : Client) : Run unit :=
  let '(containers, err) := ContainerList cli {| container.All := true |} in
  match err with
  | Some e => fmt_Print ("Error listing containers: " +:+ e)
  | None => mret tt
  end;;
  stopped ← IsThereStoppedContainers cli;
  if stopped : bool then
    PrintHeader Sprintf "container";;
    ListStoppedContainers_range containers
  else fmt_Print ("No stopped containers found" +:+ LF).
End Listings.

(** ** More on the fetch and on the pass *)

(** [GetContainerStats] returns an error for [c]. *)
Definition failsb (cli : Client) (c : types.Container) : bool :=
  match (GetContainerStats cli (types.ID c)).2 with
  | Some _ => true
  | None => false
  end.

(** 1 for a task that is past its [log.Printf]. *)
Definition logged_w (cli : Client) (t : Task) : nat :=
  if past_send t && failsb cli (t_c t) then 1 else 0.

(** What the log holds at any time: one line for each task past its
    [log.Printf], each the error line of a listed container. *)
Definition LogInv (cli : Client) (containers : list types.Container)
    (s : Machine) : Prop :=
  length (log s) = sum_with (logged_w cli) (tasks s)
  /\ forall line, line ∈ log s ->
       exists c err, c ∈ containers
         /\ (GetContainerStats cli (types.ID c)).2 = Some err
         /\ line = fetch_error_line c err.




(** [0 <= x <= 2^44], as [float64] comparisons: [x] is not NaN, not
    negative and not above 17592186044416. *)
Definition in_MiB_range (x : float) : Prop :=
  (0 <=? x)%float = true /\ (x <=? 17592186044416)%float = true.

(** ** pkg/container/container.go: the lifecycle commands

    The calls that change something go to the daemon as requests; a
    command is modelled by the requests it sends and the lines it prints,
    in order, next to its result. *)

(** The fields of [v1.Platform] the program sets. *)
Module v1.
Record Platform := {
  OS : string;
  Architecture : string
}.
End v1.

(** [GetDockerPlatform], for the value of [runtime.GOARCH]. *)
Definition GetDockerPlatform (GOARCH : string) : v1.Platform :=
  let platform := {| v1.OS := "linux"; v1.Architecture := GOARCH |} in
  if String.eqb (v1.Architecture platform) "amd64" then
    {| v1.OS := v1.OS platform; v1.Architecture := "amd64" |}
  else if String.eqb (v1.Architecture platform) "arm64" then
    {| v1.OS := v1.OS platform; v1.Architecture := "arm64" |}
  else platform.

Inductive Request :=
  | ContainerStart (containerID : string)
  | ContainerStop (containerID : string)
  | ContainerRemove (containerID : string)
  | ContainerCreate (image : string) (cmd : list string)
      (platform : v1.Platform) (name : string).

(** What the daemon answers to a request: an error or none. *)
Definition Daemon : Type := Request -> option error.

(** What a command does that can be seen from outside: a request to the
    daemon, or a message written to the terminal (standard output and
    standard error are not told apart). *)
Inductive Event :=
  | Requested (r : Request)
  | Printed (s : string).

Definition Trace (A : Type) : Type := list Event * A.

Definition Trace_bind {A B} (f : A -> Trace B) (m : Trace A) : Trace B :=
  let '(ev, a) := m in
  let '(ev', b) := f a in
  (ev ++ ev', b).

#[global] Instance Trace_mret : MRet Trace := fun A a => ([], a).
#[global] Instance Trace_mbind : MBind Trace := fun A B f m => Trace_bind f m.

Definition request (d : Daemon) (r : Request) : Trace (option error) :=
  ([Requested r], d r).

Definition Trace_Print (s : string) : Trace unit := ([Printed s], tt).


Definition StartContainer (d : Daemon) (containerID : string)
  : Trace (option error) :=
  request d (ContainerStart containerID).

Definition StopContainer (d : Daemon) (containerID : string)
  : Trace (option error) :=
  request d (ContainerStop containerID).

Definition RemoveContainer (d : Daemon) (containerID : string)
  : Trace (option error) :=
  request d (ContainerRemove containerID).

Definition GetGivenManipulation (d : Daemon) (command containerID : string)
  : Trace unit :=
  if String.eqb command "start" then
    err ← StartContainer d containerID;
    match err with
    | Some e => Trace_Print ("Error starting container: " +:+ e)
    | None => mret tt
    end
  else if String.eqb command "stop" then
    err ← StopContainer d containerID;
    match err with
    | Some e => Trace_Print ("Error stopping container: " +:+ e)
    | None => mret tt
    end
  else if String.eqb command "remove" then
    err ← RemoveContainer d containerID;
    match err with
    | Some e => Trace_Print ("Error removing container: " +:+ e)
    | None => mret tt
    end
  else
    Trace_Print "Error manipulating container, please give start, stop or remove command".

Definition DistributeContainerManipulation (command flag : string)
    (cli : Client) (d : Daemon) (containerSpecifier : string) : Trace unit :=
  if String.eqb flag "--id" then
    GetGivenManipulation d command containerSpecifier
  else if String.eqb flag "--name" then
    let '(c, _) := FindContainer cli containerSpecifier in
    GetGivenManipulation d command (types.ID c)
  else
    Trace_Print "Error manipulating container, please give --id or --name flag".

(** [RunContainer]; [cli] is the client as it lists once the container has
    been created. *)
Definition RunContainer (cli : Client) (d : Daemon) (GOARCH : string)
    (image name : string) : Trace (option error) :=
  let platform := GetDockerPlatform GOARCH in
  err ← request d (ContainerCreate image
                     ["/bin/sh"; "-c"; "while :; do sleep 1; done"]
                     platform name);
  match err with
  | Some e => mret (Some e)
  | None =>
      let '(c, _) := FindContainer cli name in
      StartContainer d (types.ID c)
  end.


(** ** main.go: the dispatch on the command line

    What [main] does once [HandleFlagsForManipulation] has returned, up to
    the monitoring loop.  The build branch is only named. *)

Inductive MainEnd :=
  | Monitors                                      (* the [for] loop *)
  | Builds (tag : string)                         (* the branch [os.Args[1] == "build"] *)
  | Exits (ev : list Event)                       (* [os.Exit(0)] after [run] *)
  | Returns (ev : list Event)                     (* the end of [main] *)
  | Panics (ev : list Event) (reason : string).

Section Main.
(** How the builtin [print] writes an [error] value. *)
Variable print_error : error -> string.

Definition main_commands (cli : Client) (d : Daemon) (GOARCH : string)
    (osArgs : list string) : MainEnd :=
  if decide (2 < length osArgs)%nat then
    match osArgs !! 1%nat, osArgs !! 2%nat with
    | Some arg1, Some arg2 =>
        if String.eqb arg1 "build" then Builds arg2
        else if String.eqb arg1 "run" then
          match osArgs !! 3%nat with
          | None => Panics [] "index out of range"
          | Some name =>
              let '(ev, err) := RunContainer cli d GOARCH arg2 name in
              Exits (ev ++ match err with
                           | Some e => [Printed ("Error running container: %v"
                                                 +:+ print_error e)]
                           | None => []
                           end)
          end
        else
          match osArgs !! 3%nat with
          | None => Panics [] "index out of range"
          | Some arg3 =>
              Returns (DistributeContainerManipulation arg1 arg2 cli d arg3).1
          end
    | _, _ => Panics [] "index out of range"
    end
  else Monitors.
End Main.



(** A daemon that accepts every request. *)
Definition example_daemon : Daemon := fun _ => None.

(** A client whose daemon cannot be reached. *)
Definition example_down : Client :=
  {| ContainerList := fun _ => ([], Some "Cannot connect to the Docker daemon");
     ContainerStats := fun _ => (Malformed "", Some "Cannot connect to the Docker daemon") |}.

(** ** pkg/utils/utils.go: the flags *)

Definition PrintHelp : Run unit :=
  fmt_Print ("Usage: docker-monitor [OPTIONS] [CONTAINER]" +:+ LF);;
  fmt_Print ("Display a live stream of container(s) resource usage statistics" +:+ LF);;
  fmt_Print LF;;
  fmt_Print ("Options:" +:+ LF);;
  fmt_Print ("  -v, --vertical   Print stats vertically" +:+ LF);;
  fmt_Print ("  -h, --help       Print help message" +:+ LF);;
  fmt_Print ("  -s, --stopped    List stopped containers" +:+ LF);;
  fmt_Print ("  -i, --images     List images" +:+ LF);;
  fmt_Print LF;;
  fmt_Print ("Examples:" +:+ LF);;
  fmt_Print ("  docker-monitor" +:+ LF);;
  fmt_Print ("  docker-monitor my_container" +:+ LF);;
  fmt_Print ("  docker-monitor $[container_id]" +:+ LF);;
  fmt_Print ("  docker-monitor -v" +:+ LF);;
  fmt_Print ("  docker-monitor -v my_container" +:+ LF);;
  fmt_Print ("  docker-monitor -s" +:+ LF);;
  fmt_Print ("  docker-monitor -i" +:+ LF);;
  fmt_Print LF;;
  fmt_Print ("To start, stop or remove a container:" +:+ LF);;
  fmt_Print ("  docker-monitor start --id $[container_id]" +:+ LF);;
  fmt_Print ("  docker-monitor stop --id $[container_id]" +:+ LF);;
  fmt_Print ("  docker-monitor remove --id $[container_id]" +:+ LF);;
  fmt_Print ("They could be used with --name flag as well." +:+ LF);;
  fmt_Print LF;;
  fmt_Print ("To run a container:" +:+ LF);;
  fmt_Print ("  docker-monitor run $[image_name] $[container_name]" +:+ LF);;
  fmt_Print LF;;
  fmt_Print ("To build an image:" +:+ LF);;
  fmt_Print ("  docker-monitor build $[image_tag]" +:+ LF).

(** [HandleFlags], given what [flag.Parse()] has stored for [-v], [-h],
    [-s] and [-i] (each with its long form). *)
Definition HandleFlags (verticalFlag helpFlag listStoppedFlag listImages : bool)
  : list bool * bool :=
  let flagEntered :=
    bool_decide ((helpFlag || listStoppedFlag || listImages) = true) in
  ([verticalFlag; helpFlag; listStoppedFlag; listImages], flagEntered).

(** How [HandleFlagsForManipulation] ends when it does not panic. *)
Inductive Handled :=
  | Exit0                            (* [os.Exit(0)] *)
  | Flags (flags : list bool).       (* [return]; [nil] is the empty list *)

Section Flags.
Variable Sprintf : string -> list Arg -> string.
Variable red green : string -> string.

(** [HandleFlagsForManipulation], given the parsed flags and what
    [cli.ImageList] answers. *)
Definition HandleFlagsForManipulation (cli : Client)
    (ImageList : list image.Summary * option error)
    (verticalFlag helpFlag listStoppedFlag listImages : bool) : Run Handled :=
  let '(flags, flagEntered) :=
    HandleFlags verticalFlag helpFlag listStoppedFlag listImages in
  if flagEntered then
    flags1 ← index flags 1;
    (if flags1 : bool then PrintHelp else mret tt);;
    flags2 ← index flags 2;
    (if flags2 : bool then ListStoppedContainers Sprintf red green cli else mret tt);;
    flags3 ← index flags 3;
    if flags3 : bool then
      PrintHeader Sprintf "image";;
      err ← ListImages Sprintf ImageList;
      match err with
      | Some _ => mret (Flags [])
      | None => mret Exit0
      end
    else mret Exit0
  else mret (Flags flags).
End Flags.

(** * Proofs *)

(** ** Binary64 arithmetic on the values the decoder meets *)

Lemma digits2_pos_size p : digits2_pos p = Pos.size p.
Proof. induction p as [p IH|p IH|]; simpl; by rewrite ?IH. Qed.

(** A positive number of [d] binary digits lies in [[2^(d-1), 2^d)]. *)
Lemma digits2_pos_bounds p :
  2 ^ (Z.pos (digits2_pos p) - 1) <= Z.pos p < 2 ^ Z.pos (digits2_pos p).
Proof.
  rewrite digits2_pos_size. split.
  - pose proof (Pos.size_le p) as H.
    assert (H' : 2 ^ Z.pos (Pos.size p) <= 2 * Z.pos p).
    { change (2 * Z.pos p) with (Z.pos p~0). rewrite <- Pos2Z.inj_pow. exact H. }
    replace (Z.pos (Pos.size p)) with (Z.succ (Z.pos (Pos.size p) - 1)) in H' by lia.
    rewrite Z.pow_succ_r in H' by lia. lia.
  - pose proof (Pos.size_gt p) as H.
    rewrite <- Pos2Z.inj_pow. exact H.
Qed.

Lemma digits2_pos_unique p d :
  2 ^ (d - 1) <= Z.pos p < 2 ^ d -> Z.pos (digits2_pos p) = d.
Proof.
  intros [Hlo Hhi]. pose proof (digits2_pos_bounds p) as [Hlo' Hhi'].
  assert (Hd : 0 < d).
  { destruct (Z.lt_trichotomy d 0) as [Hn|[->|]]; [|simpl in Hhi; lia|done].
    rewrite Z.pow_neg_r in Hhi by done. lia. }
  destruct (Z.lt_trichotomy (Z.pos (digits2_pos p)) d) as [Hlt|[Heq|Hgt]]; [|done|].
  - assert (2 ^ Z.pos (digits2_pos p) <= 2 ^ (d - 1));
      [apply Z.pow_le_mono_r; lia|lia].
  - assert (2 ^ d <= 2 ^ (Z.pos (digits2_pos p) - 1));
      [apply Z.pow_le_mono_r; lia|lia].
Qed.

Lemma digits2_pos_iter_xO p n :
  Z.pos (digits2_pos (Pos.iter xO p n)) = Z.pos (digits2_pos p) + Z.pos n.
Proof.
  revert p. induction n as [|n IH] using Pos.peano_ind; intros p.
  - simpl. lia.
  - rewrite Pos.iter_succ. simpl. rewrite Pos2Z.inj_succ, IH. lia.
Qed.

(** Shifting right drops the low bits of the mantissa. *)
Lemma shr_1_m mrs : 0 <= shr_m mrs -> shr_m (shr_1 mrs) = Z.shiftr (shr_m mrs) 1.
Proof.
  destruct mrs as [m r s]. simpl. intros Hm.
  destruct m as [|p|p]; [done| |lia]. by destruct p.
Qed.

Lemma shr_1_nonneg mrs : 0 <= shr_m mrs -> 0 <= shr_m (shr_1 mrs).
Proof. intros H. rewrite shr_1_m by done. by apply Z.shiftr_nonneg. Qed.

Lemma iter_pos_shr_1_m n mrs :
  0 <= shr_m mrs ->
  shr_m (SpecFloat.iter_pos shr_1 n mrs) = Z.shiftr (shr_m mrs) (Z.pos n)
  /\ 0 <= shr_m (SpecFloat.iter_pos shr_1 n mrs).
Proof.
  revert mrs. induction n as [n IH|n IH|]; intros mrs Hm; simpl.
  - pose proof (shr_1_nonneg _ Hm) as H1.
    destruct (IH _ H1) as [E1 N1]. destruct (IH _ N1) as [E2 N2].
    split; [|done]. rewrite E2, E1, shr_1_m by done.
    rewrite !Z.shiftr_shiftr by lia. f_equal. lia.
  - destruct (IH _ Hm) as [E1 N1]. destruct (IH _ N1) as [E2 N2].
    split; [|done]. rewrite E2, E1. rewrite Z.shiftr_shiftr by lia. f_equal. lia.
  - split; [by apply shr_1_m|by apply shr_1_nonneg].
Qed.

Lemma round_nearest_even_range m l :
  round_nearest_even m l = m \/ round_nearest_even m l = m + 1.
Proof. destruct l as [|[]]; simpl; auto. destruct (Z.even m); auto. Qed.

Lemma binary_round_aux_finish s m e l :
  binary_round_aux prec emax s m e l
  = finish s (round_nearest_even (shr_m (shr_fexp prec emax m e l).1)
                (loc_of_shr_record (shr_fexp prec emax m e l).1))
      (shr_fexp prec emax m e l).2.
Proof. unfold binary_round_aux, finish. by destruct (shr_fexp prec emax m e l). Qed.

Lemma fexp_normal x : -1021 <= x -> fexp prec emax x = x - 53.
Proof. intros H. unfold fexp, SpecFloat.emin, prec, emax. lia. Qed.

Lemma shr_fexp_53 q e :
  Z.pos (digits2_pos q) = 53 -> -1074 <= e ->
  shr_fexp prec emax (Z.pos q) e loc_Exact
  = ({| shr_m := Z.pos q; shr_r := false; shr_s := false |}, e).
Proof.
  intros Hd He. unfold shr_fexp, Zdigits2. rewrite Hd, fexp_normal by lia.
  replace (53 + e - 53 - e) with 0 by lia. reflexivity.
Qed.

Lemma finish_53 s q e :
  Z.pos (digits2_pos q) = 53 -> -1074 <= e ->
  finish s (Z.pos q) e
  = if e <=? 971 then S754_finite s q e else S754_infinity s.
Proof. intros Hd He. unfold finish. by rewrite shr_fexp_53. Qed.

Lemma finish_54 s q e :
  Z.pos (digits2_pos q) = 53 -> -1075 <= e ->
  finish s (Z.pos q~0) e
  = if e + 1 <=? 971 then S754_finite s q (e + 1) else S754_infinity s.
Proof.
  intros Hd He. unfold finish, shr_fexp, Zdigits2.
  change (digits2_pos q~0) with (Pos.succ (digits2_pos q)).
  rewrite Pos2Z.inj_succ, Hd, fexp_normal by lia.
  replace (Z.succ 53 + e - 53 - e) with 1 by lia. reflexivity.
Qed.

Lemma binary_round_aux_53 s q e :
  Z.pos (digits2_pos q) = 53 -> -1074 <= e ->
  binary_round_aux prec emax s (Z.pos q) e loc_Exact
  = if e <=? 971 then S754_finite s q e else S754_infinity s.
Proof.
  intros Hd He. rewrite binary_round_aux_finish, shr_fexp_53 by done.
  simpl. by apply finish_53.
Qed.

Lemma binary_round_aux_54 s q e :
  Z.pos (digits2_pos q) = 53 -> -1075 <= e ->
  binary_round_aux prec emax s (Z.pos q~0) e loc_Exact
  = if e + 1 <=? 971 then S754_finite s q (e + 1) else S754_infinity s.
Proof.
  intros Hd He. rewrite binary_round_aux_finish.
  assert (Hs : shr_fexp prec emax (Z.pos q~0) e loc_Exact
               = ({| shr_m := Z.pos q; shr_r := false; shr_s := false |}, e + 1)).
  { unfold shr_fexp, Zdigits2.
    change (digits2_pos q~0) with (Pos.succ (digits2_pos q)).
    rewrite Pos2Z.inj_succ, Hd, fexp_normal by lia.
    replace (Z.succ 53 + e - 53 - e) with 1 by lia. reflexivity. }
  rewrite Hs. simpl. apply finish_53; [done|lia].
Qed.

(** The shape of [float64(n)] for a positive [n]: a normal number with a
    full mantissa, at least 1 and, for a [uint64], at most [2^64]; or
    infinity when [n] is beyond the format. *)
Lemma binary_round_pos p :
  (binary_round prec emax false p 0 = S754_infinity false /\ 2 ^ 64 <= Z.pos p)
  \/ exists m e, binary_round prec emax false p 0 = S754_finite false m e
       /\ Z.pos (digits2_pos m) = 53 /\ -52 <= e <= 971
       /\ (Z.pos p < 2 ^ 64 -> e <= 12).
Proof.
  pose proof (digits2_pos_bounds p) as [Hlo Hhi].
  set (d := Z.pos (digits2_pos p)) in *.
  assert (Hd : 1 <= d) by (unfold d; lia).
  assert (H64 : 64 < d -> 2 ^ 64 <= Z.pos p).
  { intros Hgt.
    assert (2 ^ 64 <= 2 ^ (d - 1)) by (apply Z.pow_le_mono_r; lia). lia. }
  unfold binary_round. fold d. rewrite fexp_normal by lia.
  unfold shl_align. replace (d + 0 - 53 - 0) with (d - 53) by lia.
  destruct (d - 53) as [|k|k] eqn:Hk.
  - (* exactly 53 digits *)
    rewrite binary_round_aux_53 by (fold d; lia). simpl. right.
    exists p, 0. repeat split; try lia.
  - (* more than 53 digits: the low bits are rounded away *)
    rewrite binary_round_aux_finish.
    assert (Hs : shr_fexp prec emax (Z.pos p) 0 loc_Exact
                 = (SpecFloat.iter_pos shr_1 k
                      {| shr_m := Z.pos p; shr_r := false; shr_s := false |},
                    Z.pos k)).
    { unfold shr_fexp, Zdigits2. fold d. rewrite fexp_normal by lia.
      replace (d + 0 - 53 - 0) with (Z.pos k) by lia. reflexivity. }
    rewrite Hs. simpl fst. simpl snd.
    destruct (iter_pos_shr_1_m k {| shr_m := Z.pos p; shr_r := false; shr_s := false |})
      as [Em _]; [simpl; lia|].
    simpl shr_m in Em at 2. rewrite Z.shiftr_div_pow2 in Em by lia.
    set (mrs := SpecFloat.iter_pos shr_1 k _) in *.
    assert (Hpow : 2 ^ (d - 1) = 2 ^ 52 * 2 ^ Z.pos k).
    { rewrite <- Z.pow_add_r by lia. f_equal. lia. }
    assert (Hpow' : 2 ^ d = 2 ^ 53 * 2 ^ Z.pos k).
    { rewrite <- Z.pow_add_r by lia. f_equal. lia. }
    assert (Hk0 : 0 < 2 ^ Z.pos k) by (apply Z.pow_pos_nonneg; lia).
    assert (Hm : 2 ^ 52 <= shr_m mrs < 2 ^ 53).
    { rewrite Em. split.
      - apply Z.div_le_lower_bound; [done|]. lia.
      - apply Z.div_lt_upper_bound; [done|]. lia. }
    destruct (round_nearest_even_range (shr_m mrs) (loc_of_shr_record mrs)) as [->| ->].
    + destruct (shr_m mrs) as [|q|q] eqn:Eq; [lia| |lia].
      rewrite finish_53; [|by apply digits2_pos_unique|lia].
      destruct (Z.pos k <=? 971) eqn:El; [|left; split; [done|]; apply Z.leb_gt in El; lia]. right.
      exists q, (Z.pos k). apply Z.leb_le in El.
      split; [done|]. split; [by apply digits2_pos_unique|]. split; [lia|].
      intros Hp. destruct (Z.le_gt_cases d 64); [lia|]. specialize (H64 ltac:(lia)). lia.
    + destruct (Z.eq_dec (shr_m mrs + 1) (2 ^ 53)) as [E53|N53].
      * rewrite E53. change (2 ^ 53) with (Z.pos (2 ^ 52)~0).
        rewrite finish_54; [|done|lia].
        destruct (Z.pos k + 1 <=? 971) eqn:El; [|left; split; [done|]; apply Z.leb_gt in El; lia]. right.
        exists (2 ^ 52)%positive, (Z.pos k + 1). apply Z.leb_le in El.
        split; [done|]. split; [done|]. split; [lia|].
        intros Hp. destruct (Z.le_gt_cases d 64); [lia|]. specialize (H64 ltac:(lia)). lia.
      * destruct (shr_m mrs + 1) as [|q|q] eqn:Eq; [lia| |lia].
        rewrite finish_53; [|apply digits2_pos_unique; lia|lia].
        destruct (Z.pos k <=? 971) eqn:El; [|left; split; [done|]; apply Z.leb_gt in El; lia]. right.
        exists q, (Z.pos k). apply Z.leb_le in El.
        split; [done|]. split; [apply digits2_pos_unique; lia|]. split; [lia|].
        intros Hp. destruct (Z.le_gt_cases d 64); [lia|]. specialize (H64 ltac:(lia)). lia.
  - (* fewer than 53 digits: the mantissa is shifted left *)
    assert (Hdk : Z.pos (digits2_pos (Pos.iter xO p k)) = 53).
    { rewrite digits2_pos_iter_xO. fold d. lia. }
    rewrite binary_round_aux_53 by (done || lia).
    assert ((d + 0 - 53 <=? 971) = true) as -> by (apply Z.leb_le; lia).
    right. exists (Pos.iter xO p k), (d + 0 - 53).
    split; [done|]. split; [done|]. split; lia.
Qed.

Lemma valid_binary_53 s m e :
  Z.pos (digits2_pos m) = 53 -> -1074 <= e <= 971 ->
  valid_binary (S754_finite s m e) = true.
Proof.
  intros Hd He. unfold SpecFloat.valid_binary, bounded, canonical_mantissa.
  rewrite Hd, fexp_normal by lia. apply andb_true_iff. split.
  - apply Z.eqb_eq. lia.
  - apply Z.leb_le. unfold emax, prec. lia.
Qed.

(** What [float64] makes of a positive integer, seen as a [spec_float]. *)
Lemma Prim2SF_float64_pos z :
  0 < z ->
  (Prim2SF (float64 z) = S754_infinity false /\ 2 ^ 64 <= z)
  \/ exists m e, Prim2SF (float64 z) = S754_finite false m e
       /\ Z.pos (digits2_pos m) = 53 /\ -52 <= e <= 971
       /\ (z < 2 ^ 64 -> e <= 12).
Proof.
  intros Hz. destruct z as [|p|p]; [lia| |lia]. unfold float64. simpl.
  destruct (binary_round_pos p) as [[-> ?]|(m & e & -> & Hd & He & H64)].
  - by left.
  - right. exists m, e. split; [|done].
    apply Prim2SF_SF2Prim. apply valid_binary_53; [done|lia].
Qed.

Lemma Prim2SF_float64_uint64 z :
  uint64 z ->
  Prim2SF (float64 z) = S754_zero false
  \/ exists m e, Prim2SF (float64 z) = S754_finite false m e
       /\ Z.pos (digits2_pos m) = 53 /\ -52 <= e <= 12.
Proof.
  intros [H0 H64]. destruct (Z.eq_dec z 0) as [->|Hn]; [by left|]. right.
  destruct (Prim2SF_float64_pos z) as [[_ ?]|(m & e & Hm & Hd & He & Hb)]; [lia|lia|].
  exists m, e. split; [done|]. split; [done|]. specialize (Hb H64). lia.
Qed.

Lemma Z_div_eucl_div_mod a b : Z.div_eucl a b = (a / b, a mod b).
Proof. unfold Z.div, Z.modulo. by destruct (Z.div_eucl a b). Qed.

(** Dividing a normal number by [2^j] only lowers its exponent, as long as
    the quotient is normal too. *)
Lemma SFdiv_pow2 s m e j :
  Z.pos (digits2_pos m) = 53 -> -1073 <= e - j <= 971 ->
  SF64div (S754_finite s m e) (S754_finite false (2 ^ 52) (j - 52))
  = S754_finite s m (e - j).
Proof.
  intros Hd He. unfold SF64div, SFdiv.
  assert (Hcore : SFdiv_core_binary prec emax (Z.pos m) e (Z.pos (2 ^ 52)) (j - 52)
                  = (Z.pos m~0, e - j - 1, loc_Exact)).
  { unfold SFdiv_core_binary, Zdigits2. rewrite Hd.
    change (Z.pos (digits2_pos (2 ^ 52))) with 53.
    rewrite fexp_normal by lia.
    replace (Z.min (53 + e - (53 + (j - 52)) - 53) (e - (j - 52)))
      with (e - j - 1) by lia.
    replace (e - (j - 52) - (e - j - 1)) with 53 by lia.
    cbv iota beta. rewrite Z_div_eucl_div_mod, Z.shiftl_mul_pow2 by lia.
    replace (Z.pos m * 2 ^ 53) with (Z.pos m~0 * Z.pos (2 ^ 52)) by lia.
    rewrite Z.div_mul, Z.mod_mul by lia. reflexivity. }
  rewrite Hcore, binary_round_aux_54 by (done || lia).
  replace (e - j - 1 + 1) with (e - j) by lia.
  assert ((e - j <=? 971) = true) as -> by (apply Z.leb_le; lia).
  by destruct s.
Qed.

Lemma Prim2SF_1024 : Prim2SF 1024 = S754_finite false (2 ^ 52) (10 - 52).
Proof. vm_compute. reflexivity. Qed.

Lemma Prim2SF_1048576 : Prim2SF 1048576 = S754_finite false (2 ^ 52) (20 - 52).
Proof. vm_compute. reflexivity. Qed.

(** Dividing a converted [uint64] by 1024 twice is dividing it by
    1048576: both quotients are exact. *)
Lemma float64_div_MiB z :
  uint64 z ->
  (float64 z / 1024 / 1024)%float = (float64 z / 1048576)%float.
Proof.
  intros Hz. apply Prim2SF_inj. rewrite !div_spec, Prim2SF_1024, Prim2SF_1048576.
  destruct (Prim2SF_float64_uint64 z Hz) as [->|(m & e & -> & Hd & He)]; [done|].
  rewrite (SFdiv_pow2 false m e 10), (SFdiv_pow2 false m (e - 10) 10),
    (SFdiv_pow2 false m e 20) by (done || lia).
  f_equal. lia.
Qed.

(** ** The CPU percentage *)

Lemma SF64sub_diag X :
  X = S754_zero false \/ (exists m e, X = S754_finite false m e) ->
  SF64sub X X = S754_zero false.
Proof.
  intros [->|(m & e & ->)]; [done|].
  unfold SF64sub, SFsub. by rewrite Z.sub_diag.
Qed.

(** A zero divisor leaves no finite quotient. *)
Lemma SF64div_zero D :
  SF64div D (S754_zero false) = S754_nan
  \/ exists s, SF64div D (S754_zero false) = S754_infinity s.
Proof. destruct D; simpl; eauto. Qed.

Lemma SF64mul_not_finite Q N :
  Q = S754_nan \/ (exists s, Q = S754_infinity s) ->
  (N = S754_infinity false \/ exists m e, N = S754_finite false m e) ->
  SF64mul Q N = S754_nan \/ exists s, SF64mul Q N = S754_infinity s.
Proof.
  intros [->|[s ->]] [->|(m & e & ->)]; simpl; eauto.
Qed.

Lemma SF2Prim_not_finite R :
  R = S754_nan \/ (exists s, R = S754_infinity s) ->
  SF2Prim R = nan \/ SF2Prim R = infinity \/ SF2Prim R = neg_infinity.
Proof. intros [->|[[] ->]]; simpl; auto. Qed.

Lemma float64_count_shape k :
  0 < k ->
  Prim2SF (float64 k) = S754_infinity false
  \/ exists m e, Prim2SF (float64 k) = S754_finite false m e.
Proof.
  intros Hk. destruct (Prim2SF_float64_pos k Hk) as [[-> _]|(m & e & -> & _)]; eauto.
Qed.

Lemma float64_count_nonzero k : 0 < k -> is_zero (float64 k) = false.
Proof.
  intros Hk. unfold is_zero. rewrite FloatAxioms.eqb_spec.
  by destruct (float64_count_shape k Hk) as [->|(m & e & ->)].
Qed.

Lemma perCpuUsageLen_pos (n : nat) :
  0 < (if Z.of_nat n =? 0 then 7 else Z.of_nat n).
Proof. destruct (Z.eqb_spec (Z.of_nat n) 0); lia. Qed.

Lemma nan_not_zero : nan <> 0%float.
Proof. intros H. apply (f_equal Prim2SF) in H. vm_compute in H. discriminate. Qed.

Lemma infinity_not_zero : infinity <> 0%float.
Proof. intros H. apply (f_equal Prim2SF) in H. vm_compute in H. discriminate. Qed.

Lemma neg_infinity_not_zero : neg_infinity <> 0%float.
Proof. intros H. apply (f_equal Prim2SF) in H. vm_compute in H. discriminate. Qed.

(** [C3] The code has no guard for a zero system delta.  Whenever the two
    system-time counters of a snapshot are equal, [calculateCPUPercentage]
    divides by zero and returns NaN or an infinity, never 0.0; on the
    counters (20, 10, 100, 100) with four per-core entries it returns
    [+Inf] where the claim says 0.0. *)
Theorem calculateCPUPercentage_zero_system_delta stats :
  uint64 (container.SystemUsage (container.CPUStats stats)) ->
  container.SystemUsage (container.CPUStats stats)
  = container.SystemUsage (container.PreCPUStats stats) ->
  (calculateCPUPercentage stats = nan
   \/ calculateCPUPercentage stats = infinity
   \/ calculateCPUPercentage stats = neg_infinity)
  /\ calculateCPUPercentage stats <> 0%float.
Proof.
  intros Hu Heq.
  assert (H : calculateCPUPercentage stats = nan
              \/ calculateCPUPercentage stats = infinity
              \/ calculateCPUPercentage stats = neg_infinity).
  { unfold calculateCPUPercentage. rewrite <- Heq.
    set (n := length _).
    rewrite <- (SF2Prim_Prim2SF (_ * _)%float).
    apply SF2Prim_not_finite.
    rewrite !mul_spec, div_spec, (sub_spec (float64 (container.SystemUsage _))).
    rewrite SF64sub_diag.
    2:{ destruct (Prim2SF_float64_uint64 _ Hu) as [->|(m & e & -> & _)]; eauto. }
    apply SF64mul_not_finite.
    - apply SF64mul_not_finite; [apply SF64div_zero|].
      apply float64_count_shape, perCpuUsageLen_pos.
    - right. by vm_compute; eauto. }
  split; [done|].
  destruct H as [->|[->| ->]];
    [apply nan_not_zero|apply infinity_not_zero|apply neg_infinity_not_zero].
Qed.

Lemma calculateCPUPercentage_zero_system_delta_witness :
  calculateCPUPercentage (snapshot 20 10 100 100 [5; 5; 5; 5] 0 0 ∅) = infinity
  /\ calculateCPUPercentage (snapshot 20 10 100 100 [5; 5; 5; 5] 0 0 ∅) <> 0%float.
Proof.
  split; [vm_compute; reflexivity|].
  apply (calculateCPUPercentage_zero_system_delta
           (snapshot 20 10 100 100 [5; 5; 5; 5] 0 0 ∅)).
  - unfold uint64. simpl. lia.
  - reflexivity.
Defined.

(** [C4] When the system delta is not zero, the code computes what the
    specification's calculator computes:
    [(cpuDelta / systemDelta) * perCoreCount * 100.0], with the number of
    per-core entries as [perCoreCount] and 7 in its place when there are
    none; the factor it multiplies by is never zero. *)
Theorem calculateCPUPercentage_formula stats :
  let cur := container.TotalUsage (container.CPUUsage (container.CPUStats stats)) in
  let prev := container.TotalUsage (container.CPUUsage (container.PreCPUStats stats)) in
  let syscur := container.SystemUsage (container.CPUStats stats) in
  let sysprev := container.SystemUsage (container.PreCPUStats stats) in
  let n := Z.of_nat (length (container.PercpuUsage
                               (container.CPUUsage (container.CPUStats stats)))) in
  let cpuDelta := (float64 cur - float64 prev)%float in
  let systemDelta := (float64 syscur - float64 sysprev)%float in
  is_zero systemDelta = false ->
  calculateCPUPercentage stats = cpuPercentage cur prev syscur sysprev n
  /\ (n <> 0 ->
      calculateCPUPercentage stats
      = (cpuDelta / systemDelta * float64 n * 100)%float)
  /\ (n = 0 ->
      calculateCPUPercentage stats
      = (cpuDelta / systemDelta * 7 * 100)%float)
  /\ is_zero (float64 (if n =? 0 then 7 else n)) = false.
Proof.
  intros cur prev syscur sysprev n cpuDelta systemDelta Hz.
  split; [|split; [|split]].
  - unfold cpuPercentage. fold cpuDelta systemDelta. by rewrite Hz.
  - intros Hn. unfold calculateCPUPercentage. fold n.
    by destruct (Z.eqb_spec n 0).
  - intros Hn. unfold calculateCPUPercentage. fold n. by rewrite Hn.
  - apply float64_count_nonzero. apply perCpuUsageLen_pos.
Qed.

Lemma calculateCPUPercentage_formula_witness :
  calculateCPUPercentage (snapshot 20 10 200 100 [5; 5; 5; 5] 0 0 ∅)
  = cpuPercentage 20 10 200 100 4
  /\ cpuPercentage 20 10 200 100 4 = 40%float.
Proof.
  split; [|vm_compute; reflexivity].
  assert (Hz : is_zero (float64 200 - float64 100) = false)
    by (vm_compute; reflexivity).
  exact (proj1 (calculateCPUPercentage_formula
                  (snapshot 20 10 200 100 [5; 5; 5; 5] 0 0 ∅) Hz)).
Defined.

(** ** The decoder *)

(** [C7] A decoded snapshot has its memory usage and its memory limit
    converted to [float64] and divided by 1,048,576, whatever the values:
    nothing is clamped.  1048576 bytes decode to 1.0, and the largest
    [uint64] to [2^44]. *)
Theorem GetContainerStats_memory cli id statsJSON :
  ContainerStats cli id = (Json statsJSON, None) ->
  uint64 (container.Usage (container.MemoryStats statsJSON)) ->
  uint64 (container.Limit (container.MemoryStats statsJSON)) ->
  exists sample, GetContainerStats cli id = (sample, None)
    /\ MemoryUsage sample
       = (float64 (container.Usage (container.MemoryStats statsJSON)) / 1048576)%float
    /\ MemoryLimit sample
       = (float64 (container.Limit (container.MemoryStats statsJSON)) / 1048576)%float
    /\ (container.Usage (container.MemoryStats statsJSON) = 1048576 ->
        MemoryUsage sample = 1%float)
    /\ (container.Usage (container.MemoryStats statsJSON) = 2 ^ 64 - 1 ->
        MemoryUsage sample = 17592186044416%float).
Proof.
  intros Hc Hu Hl. unfold GetContainerStats. rewrite Hc. simpl.
  eexists. split; [reflexivity|]. simpl.
  rewrite !float64_div_MiB by done.
  split; [done|]. split; [done|]. split; intros ->; vm_compute; reflexivity.
Qed.

Lemma GetContainerStats_memory_witness :
  exists sample,
    GetContainerStats example_cli (types.ID example_up) = (sample, None)
    /\ MemoryUsage sample = 1%float
    /\ MemoryLimit sample = 2%float.
Proof.
  destruct (GetContainerStats_memory example_cli (types.ID example_up)
              (snapshot 20 10 200 100 [5; 5; 5; 5] 1048576 2097152
                 {["eth0" := {| container.RxBytes := 3145728;
                                container.TxBytes := 524288 |}]}))
    as (sample & Hs & Hu & Hl & H1 & _).
  - vm_compute. reflexivity.
  - unfold uint64. simpl. lia.
  - unfold uint64. simpl. lia.
  - exists sample. split; [exact Hs|]. split; [by apply H1|].
    rewrite Hl. vm_compute. reflexivity.
Defined.

(** [C8] When the network map of a decoded snapshot has no ["eth0"]
    entry, both network figures are 0.0 and the decoder reports no error;
    when it has one, they are that interface's received and transmitted
    byte counts, converted to [float64] and divided by 1,048,576. *)
Theorem GetContainerStats_network cli id statsJSON :
  ContainerStats cli id = (Json statsJSON, None) ->
  exists sample, GetContainerStats cli id = (sample, None)
    /\ (container.Networks statsJSON !! "eth0" = None ->
        NetworkRx sample = 0%float /\ NetworkTx sample = 0%float)
    /\ (forall eth0, container.Networks statsJSON !! "eth0" = Some eth0 ->
        uint64 (container.RxBytes eth0) -> uint64 (container.TxBytes eth0) ->
        NetworkRx sample = (float64 (container.RxBytes eth0) / 1048576)%float
        /\ NetworkTx sample = (float64 (container.TxBytes eth0) / 1048576)%float).
Proof.
  intros Hc. unfold GetContainerStats. rewrite Hc. simpl.
  eexists. split; [reflexivity|]. simpl. unfold map_index. split.
  - intros ->. simpl. split; vm_compute; reflexivity.
  - intros eth0 -> Hrx Htx. simpl. by rewrite !float64_div_MiB.
Qed.

Lemma GetContainerStats_network_witness :
  exists sample,
    GetContainerStats example_cli (types.ID example_up) = (sample, None)
    /\ NetworkRx sample = 3%float
    /\ NetworkTx sample = 0.5%float.
Proof.
  destruct (GetContainerStats_network example_cli (types.ID example_up)
              (snapshot 20 10 200 100 [5; 5; 5; 5] 1048576 2097152
                 {["eth0" := {| container.RxBytes := 3145728;
                                container.TxBytes := 524288 |}]}))
    as (sample & Hs & _ & Hn).
  - vm_compute. reflexivity.
  - exists sample. split; [exact Hs|].
    destruct (Hn {| container.RxBytes := 3145728; container.TxBytes := 524288 |})
      as [Hrx Htx].
    + vm_compute. reflexivity.
    + unfold uint64. simpl. lia.
    + unfold uint64. simpl. lia.
    + rewrite Hrx, Htx. split; vm_compute; reflexivity.
Defined.

(** ** Container resolution *)

Lemma substring_prefix_inv (p s : string) :
  substring 0 (String.length p) s = p -> exists rest, s = p +:+ rest.
Proof.
  revert s. induction p as [|a p IH]; intros s H.
  - by exists s.
  - destruct s as [|b s]; simpl in H; [done|].
    injection H as -> H. destruct (IH _ H) as [rest ->]. by exists rest.
Qed.

Lemma substring_prefix_append (p rest : string) :
  substring 0 (String.length p) (p +:+ rest) = p.
Proof.
  induction p as [|a p IH]; simpl.
  - by destruct rest.
  - by rewrite IH.
Qed.

Lemma length_append_le (p rest : string) :
  (String.length p <= String.length (p +:+ rest))%nat.
Proof. induction p as [|a p IH]; simpl; lia. Qed.

Lemma HasPrefix_true (s p : string) :
  HasPrefix s p = true <-> exists rest, s = p +:+ rest.
Proof.
  unfold HasPrefix. rewrite andb_true_iff, Nat.leb_le, String.eqb_eq. split.
  - intros [_ H]. by apply substring_prefix_inv.
  - intros [rest ->]. split; [apply length_append_le|apply substring_prefix_append].
Qed.

Lemma FindContainer_names_true names spec :
  FindContainer_names names spec = true <->
  exists name, name ∈ names /\ (name = spec \/ name = "/" +:+ spec).
Proof.
  induction names as [|n names IH]; simpl.
  - split; [done|]. intros (name & Hin & _). by apply elem_of_nil in Hin.
  - destruct (_ || _) eqn:E.
    + split; [|done]. intros _. exists n. split; [left|].
      apply orb_true_iff in E as [E|E]; apply String.eqb_eq in E; auto.
    + rewrite IH. apply orb_false_iff in E as [E1 E2].
      apply String.eqb_neq in E1, E2. split.
      * intros (name & Hin & H). exists name. split; [by right|done].
      * intros (name & Hin & H). apply elem_of_cons in Hin as [->|Hin].
        -- by destruct H.
        -- by exists name.
Qed.

(** The two tests of the loop body decide [matches]. *)
Lemma matches_test spec c :
  matches spec c <->
  HasPrefix (types.ID c) spec = true
  \/ FindContainer_names (types.Names c) spec = true.
Proof. unfold matches. by rewrite HasPrefix_true, FindContainer_names_true. Qed.

Lemma matches_dec spec c : {matches spec c} + {~ matches spec c}.
Proof.
  destruct (HasPrefix (types.ID c) spec) eqn:E1.
  { left. apply matches_test. by left. }
  destruct (FindContainer_names (types.Names c) spec) eqn:E2.
  { left. apply matches_test. by right. }
  right. intros [H|H]%matches_test; congruence.
Qed.

(** The loop returns the first container of the listing that matches. *)
Lemma FindContainer_range_Some containers spec c :
  FindContainer_range containers spec = Some c <->
  exists pre post, containers = pre ++ c :: post
    /\ matches spec c /\ Forall (fun c' => ~ matches spec c') pre.
Proof.
  induction containers as [|c0 containers IH]; simpl.
  - split; [done|]. intros (pre & post & H & _). by destruct pre.
  - destruct (matches_dec spec c0) as [Hm|Hn].
    + assert (Ht : (if HasPrefix (types.ID c0) spec then Some c0
                    else if FindContainer_names (types.Names c0) spec then Some c0
                    else FindContainer_range containers spec) = Some c0).
      { apply matches_test in Hm as [->| ->]; [done|]. by destruct (HasPrefix _ _). }
      rewrite Ht. split.
      * intros [= <-]. by exists [], containers.
      * intros (pre & post & H & _ & Hpre). destruct pre as [|c1 pre]; simplify_eq/=; [done|].
        by apply Forall_cons in Hpre as [? _].
    + assert (Ht : (if HasPrefix (types.ID c0) spec then Some c0
                    else if FindContainer_names (types.Names c0) spec then Some c0
                    else FindContainer_range containers spec)
                   = FindContainer_range containers spec).
      { destruct (HasPrefix _ _) eqn:E1; [destruct Hn; apply matches_test; by left|].
        destruct (FindContainer_names _ _) eqn:E2; [|done].
        destruct Hn. apply matches_test. by right. }
      rewrite Ht, IH. split.
      * intros (pre & post & -> & ? & ?). exists (c0 :: pre), post.
        split; [done|]. split; [done|]. by apply Forall_cons.
      * intros (pre & post & H & ? & Hpre). destruct pre as [|c1 pre]; simplify_eq/=; [done|].
        apply Forall_cons in Hpre as [_ ?]. by exists pre, post.
Qed.

Lemma FindContainer_range_None containers spec :
  FindContainer_range containers spec = None <->
  Forall (fun c => ~ matches spec c) containers.
Proof.
  induction containers as [|c0 containers IH]; simpl; [by split|].
  rewrite Forall_cons, <- IH, matches_test.
  destruct (HasPrefix _ _).
  { split; [done|]. intros [H _]. destruct H. by left. }
  destruct (FindContainer_names _ _).
  - split; [done|]. intros [H _]. destruct H. by right.
  - split; [|by intros [_ ?]]. intros H. split; [|done]. by intros [?|?].
Qed.

Lemma append_empty_r (s : string) : s +:+ "" = s.
Proof.
  induction s as [|a s IH]; [done|].
  change (String a (s +:+ "") = String a s). by rewrite IH.
Qed.

Lemma matches_forms spec c :
  spec = types.ID c
  \/ (exists rest, types.ID c = spec +:+ rest)
  \/ "/" +:+ spec ∈ types.Names c
  \/ spec ∈ types.Names c ->
  matches spec c.
Proof.
  intros [->|[H|[H|H]]].
  - left. exists "". by rewrite append_empty_r.
  - by left.
  - right. eauto.
  - right. eauto.
Qed.

(** [C10] [FindContainer] asks for the listing with [All: true] and
    returns the first container of that listing, in listing order, whose
    identifier starts with the specifier or one of whose names is the
    specifier, with or without the leading ['/'].  So of several containers
    whose identifiers start with the specifier the earliest listed one is
    returned, and the empty specifier resolves to the first listed
    container, not to a not-found error. *)
Theorem FindContainer_first_match cli spec listing :
  ContainerList cli {| container.All := true |} = (listing, None) ->
  (forall c, FindContainer cli spec = (c, None) <->
     exists pre post, listing = pre ++ c :: post
       /\ matches spec c /\ Forall (fun c' => ~ matches spec c') pre)
  /\ (forall pre c1 mid c2 post rest1 rest2,
        listing = pre ++ c1 :: mid ++ c2 :: post ->
        types.ID c1 = spec +:+ rest1 -> types.ID c2 = spec +:+ rest2 ->
        Forall (fun c' => ~ matches spec c') pre ->
        FindContainer cli spec = (c1, None))
  /\ (forall c rest, listing = c :: rest -> FindContainer cli "" = (c, None)).
Proof.
  intros HL. split; [|split].
  - intros c. unfold FindContainer. rewrite HL.
    rewrite <- FindContainer_range_Some.
    destruct (FindContainer_range listing spec); split; intros; by simplify_eq.
  - intros pre c1 mid c2 post rest1 rest2 -> H1 H2 Hpre.
    unfold FindContainer. rewrite HL.
    assert (FindContainer_range (pre ++ c1 :: mid ++ c2 :: post) spec = Some c1) as ->; [|done].
    apply FindContainer_range_Some. exists pre, (mid ++ c2 :: post).
    split; [done|]. split; [|done]. left. eauto.
  - intros c rest ->. unfold FindContainer. rewrite HL. simpl.
    unfold HasPrefix. simpl. by destruct (types.ID c).
Qed.

Lemma FindContainer_first_match_witness :
  FindContainer example_twins "ab" = (example_first, None)
  /\ FindContainer example_twins "" = (example_first, None)
  /\ FindContainer example_twins "ab98" = (example_second, None)
  /\ types.State example_second = "exited".
Proof.
  destruct (FindContainer_first_match example_twins "ab"
              [example_first; example_second] eq_refl) as (_ & H2 & H3).
  destruct (FindContainer_first_match example_twins "ab98"
              [example_first; example_second] eq_refl) as (H1 & _ & _).
  split; [|split; [|split; [|reflexivity]]].
  - apply (H2 [] example_first [] example_second [] "12cd34ef56ab12cd34"
             "98fe76dc54ab98fe76" eq_refl eq_refl eq_refl). constructor.
  - apply (H3 example_first [example_second] eq_refl).
  - apply H1. exists [example_first], []. split; [reflexivity|]. split.
    + left. by exists "fe76dc54ab98fe76".
    + repeat constructor. intros [H|H]%matches_test; vm_compute in H; discriminate.
Defined.

(** [C6], as stated, fails: a specifier that is a prefix of the second
    listed container's identifier resolves to the first listed container
    when that one's identifier starts with it too. *)
Lemma FindContainer_same_container_counterexample :
  ContainerList example_twins {| container.All := true |}
    = ([example_first; example_second], None)
  /\ example_second ∈ [example_first; example_second]
  /\ types.ID example_second = "ab" +:+ "98fe76dc54ab98fe76"
  /\ FindContainer example_twins "ab" = (example_first, None)
  /\ example_first <> example_second.
Proof.
  split; [reflexivity|]. split; [right; left|]. split; [reflexivity|].
  split; [reflexivity|]. discriminate.
Qed.

(** [C6], amended: for a container of the listing and a specifier that is
    its full identifier, a prefix of its identifier, its bare name, or its
    name with the leading ['/'], [FindContainer] returns, without error,
    the first listed container that the specifier names: that same
    container when no container listed before it is named by the
    specifier too.  A specifier that names no listed container yields the
    not-found error. *)
Theorem FindContainer_resolves cli spec listing :
  ContainerList cli {| container.All := true |} = (listing, None) ->
  (forall c, c ∈ listing ->
     spec = types.ID c
     \/ (exists rest, types.ID c = spec +:+ rest)
     \/ "/" +:+ spec ∈ types.Names c
     \/ spec ∈ types.Names c ->
     (exists c' pre post, FindContainer cli spec = (c', None)
        /\ listing = pre ++ c' :: post /\ matches spec c'
        /\ Forall (fun c'' => ~ matches spec c'') pre)
     /\ (forall pre post, listing = pre ++ c :: post ->
           Forall (fun c' => ~ matches spec c') pre ->
           FindContainer cli spec = (c, None)))
  /\ (Forall (fun c => ~ matches spec c) listing ->
      FindContainer cli spec = (types.zero, Some (NotFound spec))).
Proof.
  intros HL. split.
  - intros c Hin Hforms. apply matches_forms in Hforms. split.
    + destruct (FindContainer_range listing spec) as [c'|] eqn:E.
      * pose proof E as (pre & post & ? & ? & ?)%FindContainer_range_Some.
        exists c', pre, post. unfold FindContainer. by rewrite HL, E.
      * apply FindContainer_range_None in E.
        rewrite Forall_forall in E. by destruct (E c Hin).
    + intros pre post -> Hpre. unfold FindContainer. rewrite HL.
      assert (FindContainer_range (pre ++ c :: post) spec = Some c) as ->; [|done].
      apply FindContainer_range_Some. by exists pre, post.
  - intros Hnone%FindContainer_range_None. unfold FindContainer. by rewrite HL, Hnone.
Qed.

Lemma FindContainer_resolves_witness :
  FindContainer example_twins "second" = (example_second, None)
  /\ FindContainer example_twins "nothing"
     = (types.zero, Some (NotFound "nothing")).
Proof.
  split.
  - destruct (FindContainer_resolves example_twins "second"
                [example_first; example_second] eq_refl) as [H _].
    destruct (H example_second ltac:(right; left)
                ltac:(right; right; left; left)) as [_ H2].
    apply (H2 [example_first] [] eq_refl).
    repeat constructor. intros [H3|H3]%matches_test; vm_compute in H3; discriminate.
  - destruct (FindContainer_resolves example_twins "nothing"
                [example_first; example_second] eq_refl) as [_ H].
    apply H. repeat constructor;
      intros [H3|H3]%matches_test; vm_compute in H3; discriminate.
Defined.

(** ** The machine keeps its invariant *)

Ltac closer_tac :=
  repeat match goal with
         | |- context [closer_pc ?s] => destruct (closer_pc s)
         | H : context [closer_pc ?s] |- _ => destruct (closer_pc s)
         end;
  simpl in *; intuition (congruence || lia).

Ltac inv_easy :=
  simpl; try done; try lia;
  try (solve [closer_tac]).

Lemma sum_with_app f l t : sum_with f (l ++ [t]) = (sum_with f l + f t)%nat.
Proof. induction l as [|x l IH]; simpl; lia. Qed.

Lemma sum_with_insert f l i t t' :
  l !! i = Some t ->
  (sum_with f (<[i := t']> l) + f t = sum_with f l + f t')%nat.
Proof.
  revert i. induction l as [|x l IH]; intros [|i] H; simplify_eq/=; try lia.
  specialize (IH _ H). lia.
Qed.

Lemma sum_with_zero f l i t :
  sum_with f l = O -> l !! i = Some t -> f t = O.
Proof.
  revert i. induction l as [|x l IH]; intros [|i] H0 H; simplify_eq/=; try lia.
  apply (IH i); [lia|done].
Qed.

Lemma sum_with_lt_length f l i t :
  (forall x, f x <= 1)%nat -> l !! i = Some t -> f t = O ->
  (sum_with f l < length l)%nat.
Proof.
  intros Hf. revert i.
  assert (Hle : forall l, (sum_with f l <= length l)%nat).
  { intros l'. induction l' as [|x l' IH]; simpl; [lia|]. specialize (Hf x). lia. }
  induction l as [|x l IH]; intros [|i] H H0; simplify_eq/=.
  - specialize (Hle l). lia.
  - specialize (IH _ H H0). specialize (Hf x). lia.
Qed.

Lemma sum_with_pos f l :
  (0 < sum_with f l)%nat -> exists i t, l !! i = Some t /\ (0 < f t)%nat.
Proof.
  induction l as [|x l IH]; simpl; [lia|]. intros H.
  destruct (f x) as [|n] eqn:E.
  - destruct IH as (i & t & ? & ?); [lia|]. by exists (S i), t.
  - exists O, x. split; [done|lia].
Qed.

Lemma slot_ok cli c stats :
  GetContainerStats cli (types.ID c) = (stats, None) ->
  slot cli c = {| Container := c; Stats := stats |}.
Proof. unfold slot. by intros ->. Qed.

Lemma slot_failed cli c stats err :
  GetContainerStats cli (types.ID c) = (stats, Some err) ->
  slot cli c = ContainerStat_zero.
Proof. unfold slot. by intros ->. Qed.

Lemma Inv_init cli containers : Inv cli containers init.
Proof.
  constructor; simpl; try done; try lia.
  all: try (intros ? ? H; by rewrite ?lookup_nil in H).
  all: try (intros ? ? ? ? H; by rewrite ?lookup_nil in H).
  all: try (intros ? H; by apply elem_of_nil in H).
Qed.

Lemma step_closer_Inv cli containers s s' :
  Inv cli containers s -> step_closer s = Some s' -> Inv cli containers s'.
Proof.
  intros [Hnp Htasks Hsp Hwg Hcl Hret Hres Hchan Hslots Hdel Hcap Hcol Hlogn Hlogged] Hs.
  unfold step_closer in Hs.
  destruct (closer_pc s) eqn:Hc; try done.
  - destruct (wg s) eqn:Hw; simplify_eq.
    constructor; simpl; try done; closer_tac.
  - destruct (closed s) eqn:Hcd; simplify_eq.
    + destruct Hcl as (_ & ? & _). done.
    + constructor; simpl; try done; closer_tac.
Qed.

Lemma Inv_tasks_le cli containers s :
  Inv cli containers s -> (length (tasks s) <= length containers)%nat.
Proof.
  intros HI. destruct (decide (length (tasks s) <= length containers)%nat) as [|Hn]; [done|].
  destruct (lookup_lt_is_Some_2 (tasks s) (length containers)) as [t Ht]; [lia|].
  destruct (inv_tasks _ _ _ HI _ _ Ht) as (_ & Hc & _).
  apply lookup_lt_Some in Hc. lia.
Qed.

Lemma step_main_Inv cli containers s s' :
  Inv cli containers s -> step_main containers s = Some s' -> Inv cli containers s'.
Proof.
  intros HI Hs. pose proof (Inv_tasks_le _ _ _ HI) as Hle.
  destruct HI as [Hnp Htasks Hsp Hwg Hcl Hret Hres Hchan Hslots Hdel Hcap Hcol Hlogn Hlogged].
  unfold step_main in Hs.
  destruct (main_pc s) as [index|index c| | | | |] eqn:Hm; try done.
  - (* MRange *)
    destruct (containers !! index) as [c|] eqn:Hc; simplify_eq.
    + constructor; inv_easy.
    + apply lookup_ge_None in Hc.
      constructor; rewrite ?Hm; inv_easy.
  - (* MGo *)
    destruct Hsp as [Hlen Hc]. simplify_eq.
    constructor; inv_easy.
    + intros i t [[Hi Ht]|[-> <-]]%lookup_snoc_Some; [by apply Htasks|done].
    + rewrite length_app. simpl. lia.
    + rewrite sum_with_app. unfold live_w at 2. simpl. lia.
    + intros i t stats [[Hi Ht]|[-> <-]]%lookup_snoc_Some; [by apply Hdel|done].
    + rewrite sum_with_app. lia.
    + rewrite sum_with_app. lia.
    + intros i t stats err [[Hi Ht]|[-> <-]]%lookup_snoc_Some; [by eapply Hlogged|done].
  - (* MGoCloser *)
    simplify_eq. constructor; inv_easy.
  - (* MMake *)
    simplify_eq. constructor; inv_easy.
    + by rewrite length_replicate.
    + intros i v [-> _]%lookup_replicate. by left.
    + intros i t stats Ht Hp Hg. destruct (Hdel _ _ _ Ht Hp Hg) as [|Hr]; [by left|].
      by rewrite Hres in Hr.
  - (* MRecv *)
    destruct (statsChan s) as [|result rest] eqn:Hch.
    + destruct (closed s) eqn:Hcd; simplify_eq.
      constructor; inv_easy; rewrite ?Hch; try done.
      intros _.
        assert (Hw0 : sum_with live_w (tasks s) = O).
        { destruct (closer_pc s); simpl in *; try (intuition congruence). all: destruct Hcl as (? & ? & ?); lia. }
        apply list_eq. intros i. unfold collected. rewrite list_lookup_fmap.
        destruct (containers !! i) as [c|] eqn:Hc; simpl.
        -- destruct (lookup_lt_is_Some_2 (tasks s) i) as [t Ht].
           { apply lookup_lt_Some in Hc. lia. }
           destruct (Htasks _ _ Ht) as (_ & Hc' & _). simplify_eq.
           pose proof (sum_with_zero _ _ _ _ Hw0 Ht) as Hex.
           assert (Hp : past_send t = true).
           { unfold live_w, exited in Hex. unfold past_send. by destruct (t_pc t). }
           destruct (GetContainerStats cli (types.ID (t_c t))) as [stats [err|]] eqn:Hg.
           ++ rewrite (slot_failed _ _ _ _ Hg).
              destruct (lookup_lt_is_Some_2 (results s) i) as [v Hv].
              { apply lookup_lt_Some in Hc. lia. }
              rewrite Hv. f_equal.
              destruct (Hslots _ _ Hv) as [|(c & ? & ->)]; [done|].
              simplify_eq. by rewrite (slot_failed _ _ _ _ Hg).
           ++ rewrite (slot_ok _ _ _ Hg).
              destruct (Hdel _ _ _ Ht Hp Hg) as [Hin|]; [|done].
              by apply elem_of_nil in Hin.
        -- apply lookup_ge_None. apply lookup_ge_None in Hc. lia.
    + assert (Hin : result ∈ result :: rest) by left.
      destruct (Hchan _ Hin) as (c & stats & Hc & Hg & Hst).
      destruct (decide _) as [Hlt|Hge]; simplify_eq.
      2:{ apply lookup_lt_Some in Hc. lia. }
      constructor; rewrite ?Hm; inv_easy.
      * by rewrite length_insert.
      * intros m Hmem. apply Hchan. by right.
      * intros i v [(<- & <- & _)|[? ?]]%list_lookup_insert_Some; [|by apply Hslots].
        right. exists c. split; [done|]. by rewrite Hst, (slot_ok _ _ _ Hg).
      * intros i t st Ht Hp Hg'.
        destruct (Hdel _ _ _ Ht Hp Hg') as [Hel|Hr].
        -- apply elem_of_cons in Hel as [Heq|Hel]; [|by left].
           right. subst result. simpl in *. rewrite Hst.
           by apply list_lookup_insert_eq.
        -- right. destruct (decide (Index result = i)) as [<-|Hne].
           ++ destruct (Htasks _ _ Ht) as (_ & Hc' & _). simplify_eq.
              rewrite Hg in Hg'. simplify_eq.
              rewrite list_lookup_insert_eq by done. by rewrite Hst.
           ++ by rewrite list_lookup_insert_ne.
Qed.

Lemma sum_with_ge f l i t : l !! i = Some t -> (f t <= sum_with f l)%nat.
Proof.
  revert i. induction l as [|x l IH]; intros [|i] H; simplify_eq/=; [lia|].
  specialize (IH _ H). lia.
Qed.

Lemma live_w_unfold t : live_w t = if exited t then 0%nat else 1%nat.
Proof. done. Qed.

Lemma past_w_unfold t : past_w t = if past_send t then 1%nat else 0%nat.
Proof. done. Qed.

(** How the two counts over the tasks change when task [i] moves to [pc]. *)
Ltac task_sums Ht Hpc pc :=
  let Hl := fresh "Hlive" in
  let Hp := fresh "Hpast" in
  match type of Ht with
  | _ !! _ = Some ?t =>
      pose proof (sum_with_insert live_w _ _ _
                    {| t_i := t_i t; t_c := t_c t; t_pc := pc |} Ht) as Hl;
      pose proof (sum_with_insert past_w _ _ _
                    {| t_i := t_i t; t_c := t_c t; t_pc := pc |} Ht) as Hp;
      rewrite !live_w_unfold in Hl; rewrite !past_w_unfold in Hp;
      unfold exited in Hl; unfold past_send in Hp;
      simpl in Hl, Hp; rewrite ?Hpc in Hl, Hp
  end.

Lemma step_task_Inv cli containers i s s' :
  Inv cli containers s -> step_task cli containers i s = Some s' ->
  Inv cli containers s'.
Proof.
  intros HI Hs.
  destruct HI as [Hnp Htasks Hsp Hwg Hcl Hret Hres Hchan Hslots Hdel Hcap Hcol Hlogn Hlogged].
  unfold step_task in Hs.
  destruct (tasks s !! i) as [t|] eqn:Ht; [|done].
  destruct (Htasks _ _ Ht) as (Hti & Hc & Hok).
  unfold pc_ok in Hok.
  destruct (t_pc t) as [|err|stats| |] eqn:Hpc; try done.
  - (* TFetch *)
    destruct (GetContainerStats cli (types.ID (t_c t))) as [stats [err|]] eqn:Hg;
      simplify_eq; unfold set_task.
    + task_sums Ht Hpc (TLog err).
      constructor; inv_easy; rewrite ?length_insert; try done.
      * intros j t' [(<- & <- & _)|[? ?]]%list_lookup_insert_Some;
          [by unfold pc_ok; simpl; rewrite ?Hg|by apply Htasks].
      * intros j t' st [(<- & <- & _)|[? ?]]%list_lookup_insert_Some;
          [done|by apply Hdel].
      * intros j t' st e [(<- & <- & _)|[? ?]]%list_lookup_insert_Some;
          [done|by eapply Hlogged].
    + task_sums Ht Hpc (TSend stats).
      constructor; inv_easy; rewrite ?length_insert; try done.
      * intros j t' [(<- & <- & _)|[? ?]]%list_lookup_insert_Some;
          [by unfold pc_ok; simpl; rewrite ?Hg|by apply Htasks].
      * intros j t' st [(<- & <- & _)|[? ?]]%list_lookup_insert_Some;
          [done|by apply Hdel].
      * intros j t' st e [(<- & <- & _)|[? ?]]%list_lookup_insert_Some;
          [done|by eapply Hlogged].
  - (* TLog *)
    simplify_eq. task_sums Ht Hpc TDeferred.
    constructor; inv_easy; rewrite ?length_insert; try done.
    + intros j t' [(<- & <- & _)|[? ?]]%list_lookup_insert_Some;
        [done|by apply Htasks].
    + intros j t' st [(<- & <- & _)|[? ?]]%list_lookup_insert_Some;
        [|by apply Hdel].
      simpl. intros _ Hg. by rewrite Hg in Hok.
    + rewrite length_app. simpl. lia.
    + intros j t' st e [(<- & <- & _)|[? ?]]%list_lookup_insert_Some.
      * simpl. intros _ Hg. rewrite Hg in Hok. simpl in Hok. simplify_eq.
        apply elem_of_app. right. by apply list_elem_of_singleton.
      * intros Hp Hg. apply elem_of_app. left. by eapply Hlogged.
  - (* TSend *)
    task_sums Ht Hpc TDeferred.
    destruct (closed s) eqn:Hcd.
    { exfalso. pose proof (sum_with_ge live_w _ _ _ Ht) as Hge.
      rewrite live_w_unfold in Hge. unfold exited in Hge. rewrite Hpc in Hge.
      destruct (closer_pc s); simpl in Hcl; destruct Hcl as (? & ? & ?) || destruct Hcl;
        try congruence; lia. }
    destruct (decide _) as [Hlt|]; simplify_eq.
    constructor; inv_easy; rewrite ?length_insert; try done.
    + intros j t' [(<- & <- & _)|[? ?]]%list_lookup_insert_Some;
        [done|by apply Htasks].
    + intros m [Hm|Hm%list_elem_of_singleton]%elem_of_app; [by apply Hchan|].
      subst m. by exists (t_c t), stats.
    + intros j t' st [(<- & <- & _)|[? ?]]%list_lookup_insert_Some.
      * simpl. intros _ Hg. rewrite Hg in Hok. simplify_eq.
        left. apply elem_of_app. right. by apply list_elem_of_singleton.
      * intros Hp Hg. destruct (Hdel _ _ _ H0 Hp Hg) as [?|?]; [left|by right].
        apply elem_of_app. by left.
    + rewrite length_app. simpl. lia.
    + intros j t' st e [(<- & <- & _)|[? ?]]%list_lookup_insert_Some;
        [|by eapply Hlogged].
      simpl. intros _ Hg. by rewrite Hg in Hok.
  - (* TDeferred *)
    task_sums Ht Hpc TExited.
    pose proof (sum_with_ge live_w _ _ _ Ht) as Hge.
    rewrite live_w_unfold in Hge. unfold exited in Hge. rewrite Hpc in Hge.
    destruct (wg s) as [|n] eqn:Hw; [lia|]. simplify_eq.
    constructor; inv_easy; rewrite ?length_insert; try done.
    + intros j t' [(<- & <- & _)|[? ?]]%list_lookup_insert_Some;
        [done|by apply Htasks].
    + intros j t' st [(<- & <- & _)|[? ?]]%list_lookup_insert_Some;
        [|by apply Hdel].
      simpl. intros _ Hg. apply (Hdel _ _ _ Ht); [|done].
      unfold past_send. by rewrite Hpc.
    + intros j t' st e [(<- & <- & _)|[? ?]]%list_lookup_insert_Some;
        [|by eapply Hlogged].
      simpl. intros _ Hg. apply (Hlogged _ _ st _ Ht); [|done].
      unfold past_send. by rewrite Hpc.
Qed.

Lemma fire_Inv cli containers a s s' :
  Inv cli containers s -> fire cli containers a s = Some s' ->
  Inv cli containers s'.
Proof.
  intros HI. unfold fire.
  destruct (main_pc s) eqn:Hm; try done; destruct a;
    eauto using step_main_Inv, step_task_Inv, step_closer_Inv.
Qed.

Lemma exec_Inv cli containers sched s s' :
  Inv cli containers s -> exec cli containers sched s = Some s' ->
  Inv cli containers s'.
Proof.
  revert s. induction sched as [|a sched IH]; intros s HI He; simplify_eq/=; [done|].
  destruct (fire cli containers a s) as [s1|] eqn:Hf; [|done].
  eauto using fire_Inv.
Qed.

Lemma fire_no_panic cli containers a s s' :
  Inv cli containers s -> fire cli containers a s = Some s' -> main_pc s' <> MPanic.
Proof. intros HI Hf. eapply inv_no_panic, fire_Inv; eauto. Qed.

(** Every step uses up some of the measure. *)
Lemma fire_measure cli containers a s s' :
  Inv cli containers s -> fire cli containers a s = Some s' ->
  (measure containers s' < measure containers s)%nat.
Proof.
  intros HI Hf. pose proof (fire_no_panic _ _ _ _ _ HI Hf) as Hnp'.
  unfold fire in Hf. unfold measure.
  assert (Hstep : match a with
                  | AMain => step_main containers s
                  | ATask i => step_task cli containers i s
                  | ACloser => step_closer s
                  end = Some s') by (by destruct (main_pc s)).
  clear Hf. destruct a as [|i|].
  - unfold step_main in Hstep.
    pose proof (inv_spawned _ _ _ HI) as Hsp.
    pose proof (inv_closer _ _ _ HI) as Hcl.
    destruct (main_pc s) as [index|index c| | | | |] eqn:Hm; try done.
    + destruct (containers !! index) as [c|] eqn:Hc; simplify_eq/=; [|lia].
      apply lookup_lt_Some in Hc. lia.
    + simplify_eq/=. rewrite sum_with_app. unfold weight_task at 2. simpl.
      destruct Hsp as [_ Hc]. apply lookup_lt_Some in Hc. lia.
    + simplify_eq/=.
      destruct (closer_pc s); simpl in *; destruct Hcl as (? & ?); try done; lia.
    + simplify_eq/=. lia.
    + destruct (statsChan s) as [|m rest] eqn:Hch.
      * destruct (closed s); simplify_eq/=. rewrite Hch. simpl. lia.
      * destruct (decide _); simplify_eq/=; try done; rewrite ?Hch; simpl; lia.
  - unfold step_task in Hstep.
    destruct (tasks s !! i) as [t|] eqn:Ht; [|done].
    pose proof (fun pc => sum_with_insert weight_task _ _ _
                  {| t_i := t_i t; t_c := t_c t; t_pc := pc |} Ht) as Hsum.
    unfold weight_task at 2 4 in Hsum. simpl in Hsum.
    destruct (t_pc t) as [|err|stats| |] eqn:Hpc; try done.
    + destruct (GetContainerStats cli (types.ID (t_c t))) as [stats [err|]];
        simplify_eq/=.
      * specialize (Hsum (TLog err)). simpl in Hsum. lia.
      * specialize (Hsum (TSend stats)). simpl in Hsum. lia.
    + simplify_eq/=. specialize (Hsum TDeferred). simpl in Hsum. lia.
    + destruct (closed s); simplify_eq/=; try done.
      destruct (decide _); simplify_eq/=.
      specialize (Hsum TDeferred). simpl in Hsum. rewrite length_app. simpl. lia.
    + destruct (wg s); simplify_eq/=; try done.
      specialize (Hsum TExited). simpl in Hsum. lia.
  - unfold step_closer in Hstep.
    destruct (closer_pc s) eqn:Hc; try done.
    + destruct (wg s); simplify_eq/=. lia.
    + destruct (closed s); simplify_eq/=; try done. lia.
Qed.

(** The length of a run is bounded by the measure of its first state. *)
Lemma exec_measure cli containers sched s s' :
  Inv cli containers s -> exec cli containers sched s = Some s' ->
  (length sched + measure containers s' <= measure containers s)%nat.
Proof.
  revert s. induction sched as [|a sched IH]; intros s HI He; simplify_eq/=; [done|].
  destruct (fire cli containers a s) as [s1|] eqn:Hf; [|done].
  pose proof (fire_measure _ _ _ _ _ HI Hf).
  specialize (IH s1 (fire_Inv _ _ _ _ _ HI Hf) He). lia.
Qed.

Lemma MReturn_dec (pc : MainPc) : {pc = MReturn} + {pc <> MReturn}.
Proof. destruct pc; (by left) || (by right). Qed.

(** Until the call returns, some goroutine can take a step. *)
Lemma progress cli containers s :
  Inv cli containers s -> main_pc s <> MReturn ->
  exists a s', fire cli containers a s = Some s'.
Proof.
  intros HI Hnr.
  destruct HI as [Hnp Htasks Hsp Hwg Hcl Hret Hres Hchan Hslots Hdel Hcap Hcol Hlogn Hlogged].
  unfold fire.
  destruct (main_pc s) as [index|index c| | | | |] eqn:Hm; try done.
  - exists AMain. unfold step_main. rewrite Hm. destruct (containers !! index); eauto.
  - exists AMain. unfold step_main. rewrite Hm. eauto.
  - exists AMain. unfold step_main. rewrite Hm. eauto.
  - exists AMain. unfold step_main. rewrite Hm. eauto.
  - destruct (statsChan s) as [|m rest] eqn:Hch.
    2:{ exists AMain. unfold step_main. rewrite Hm, Hch. destruct (decide _); eauto. }
    destruct (closed s) eqn:Hcd.
    { exists AMain. unfold step_main. rewrite Hm, Hch, Hcd. eauto. }
    destruct (closer_pc s) eqn:Hc; simpl in Hcl.
    + by destruct Hcl.
    + destruct (wg s) as [|n] eqn:Hw.
      { exists ACloser. unfold step_closer. rewrite Hc, Hw. eauto. }
      destruct (sum_with_pos live_w (tasks s)) as (i & t & Ht & Hlive); [lia|].
      exists (ATask i). unfold step_task. rewrite Ht, Hw, Hcd.
      rewrite live_w_unfold in Hlive. unfold exited in Hlive.
      destruct (t_pc t) as [|err|stats| |] eqn:Hpc; try (simpl in Hlive; lia); eauto.
      * destruct (GetContainerStats cli (types.ID (t_c t))) as [? [?|]]; eauto.
      * destruct (decide _) as [|Hfull]; eauto. exfalso. apply Hfull.
        assert (sum_with past_w (tasks s) < length (tasks s))%nat; [|rewrite Hch; simpl in *; lia].
        apply (sum_with_lt_length _ _ i t); [|done|].
        -- intros x. rewrite past_w_unfold. destruct (past_send x); lia.
        -- rewrite past_w_unfold. unfold past_send. by rewrite Hpc.
    + exists ACloser. unfold step_closer. rewrite Hc, Hcd. eauto.
    + destruct Hcl as (_ & ? & _). congruence.
Qed.

(** At the return every task has run to its end. *)
Lemma returned_tasks_exited cli containers s i t :
  Inv cli containers s -> main_pc s = MReturn -> tasks s !! i = Some t ->
  t_pc t = TExited.
Proof.
  intros HI Hm Ht.
  pose proof (inv_returned _ _ _ HI Hm) as Hcd.
  pose proof (inv_closer _ _ _ HI) as Hcl.
  pose proof (inv_wg _ _ _ HI) as Hwg. rewrite Hm in Hwg.
  assert (Hw : wg s = O).
  { destruct (closer_pc s); simpl in Hcl; destruct Hcl as (? & ? & ?) || destruct Hcl;
      congruence. }
  assert (Hs0 : sum_with live_w (tasks s) = O) by lia.
  pose proof (sum_with_zero _ _ _ _ Hs0 Ht) as Hz.
  rewrite live_w_unfold in Hz. unfold exited in Hz. by destruct (t_pc t).
Qed.

(** Nothing moves once the call has returned, and only then. *)
Lemma halted_iff_returned cli containers s :
  Inv cli containers s ->
  halted cli containers s <-> main_pc s = MReturn.
Proof.
  intros HI. split.
  - intros Hh. destruct (MReturn_dec (main_pc s)) as [|Hn]; [done|].
    destruct (progress _ _ _ HI Hn) as (a & s' & Hf). by rewrite Hh in Hf.
  - intros Hm a. unfold fire. rewrite Hm.
    pose proof (inv_returned _ _ _ HI Hm) as Hcd.
    pose proof (inv_closer _ _ _ HI) as Hcl.
    pose proof (inv_wg _ _ _ HI) as Hwg. rewrite Hm in Hwg.
    assert (Hc : closer_pc s = CExited /\ wg s = O).
    { destruct (closer_pc s); simpl in Hcl; destruct Hcl as (? & ? & ?) || destruct Hcl;
        split; congruence. }
    destruct Hc as [Hc Hw]. destruct a as [|i|].
    + unfold step_main. by rewrite Hm.
    + unfold step_task. destruct (tasks s !! i) as [t|] eqn:Ht; [|done].
      assert (Hs0 : sum_with live_w (tasks s) = O) by lia.
      pose proof (sum_with_zero _ _ _ _ Hs0 Ht) as Hz.
      rewrite live_w_unfold in Hz. unfold exited in Hz. by destruct (t_pc t).
    + unfold step_closer. by rewrite Hc.
Qed.

(** Every run can be carried on to the return. *)
Lemma exec_completes cli containers s :
  Inv cli containers s ->
  exists sched s', exec cli containers sched s = Some s' /\ main_pc s' = MReturn.
Proof.
  remember (measure containers s) as n eqn:Hn. revert s Hn.
  induction n as [n IH] using lt_wf_ind. intros s -> HI.
  destruct (MReturn_dec (main_pc s)) as [Hm|Hm].
  { by exists [], s. }
  destruct (progress _ _ _ HI Hm) as (a & s1 & Hf).
  destruct (IH _ (fire_measure _ _ _ _ _ HI Hf) s1 eq_refl (fire_Inv _ _ _ _ _ HI Hf))
    as (sched & s' & He & Hr).
  exists (a :: sched), s'. simpl. by rewrite Hf.
Qed.

(** What a complete run returns does not depend on the schedule. *)
Lemma FetchContainerStatsParallel_collected cli containers sched s lines :
  FetchContainerStatsParallel cli containers sched = Some (s, lines) ->
  s = collected cli containers.
Proof.
  unfold FetchContainerStatsParallel.
  destruct (exec cli containers sched init) as [st|] eqn:He; [|done].
  destruct (main_pc st) eqn:Hm; try done. intros [= <- <-].
  eapply inv_collected; [|done]. eapply exec_Inv; [apply Inv_init|done].
Qed.

Lemma fetch_fails_iff cli c :
  fetch_fails cli c <->
  exists err, GetContainerStats cli (types.ID c) = (Sample_zero, Some err).
Proof.
  unfold fetch_fails, GetContainerStats. split.
  - intros [(body & err & ->)|(err & ->)]; simpl; eauto.
  - intros [err H].
    destruct (ContainerStats cli (types.ID c)) as [body [e|]] eqn:Hc; [eauto|].
    destruct body as [e|js]; simpl in H; [|done]. right. eauto.
Qed.

Lemma fetch_fails_slot cli c : fetch_fails cli c -> slot cli c = ContainerStat_zero.
Proof. intros [err H]%fetch_fails_iff. by eapply slot_failed. Qed.

Lemma measure_init containers :
  measure containers init = (6 * length containers + 6)%nat.
Proof. unfold measure. simpl. lia. Qed.

Lemma collected_lookup cli containers i c :
  containers !! i = Some c -> collected cli containers !! i = Some (slot cli c).
Proof. intros H. unfold collected. by rewrite list_lookup_fmap, H. Qed.

Lemma collected_length cli containers :
  length (collected cli containers) = length containers.
Proof. unfold collected. by rewrite length_fmap. Qed.

(** [C1] Whatever the order in which the goroutines run: a run of
    [FetchContainerStatsParallel] on [N] containers takes at most [6 N + 6]
    steps, never panics, can always be carried on to the [return], and
    stops only there; the slice it returns has length [N], and its [i]-th
    element is the value for the [i]-th container ([slot]: the container
    with its sample, or the zero value when its fetch failed).  For the
    empty list no fetch task is ever started, nothing is logged, and the
    returned slice is empty. *)
Theorem FetchContainerStatsParallel_ordered cli containers sched s :
  exec cli containers sched init = Some s ->
  (length sched <= 6 * length containers + 6)%nat
  /\ main_pc s <> MPanic
  /\ (exists sched' s',
        exec cli containers sched' s = Some s' /\ main_pc s' = MReturn)
  /\ (halted cli containers s <-> main_pc s = MReturn)
  /\ (main_pc s = MReturn ->
      length (results s) = length containers
      /\ forall i c, containers !! i = Some c ->
           results s !! i = Some (slot cli c))
  /\ (containers = [] ->
      tasks s = [] /\ log s = [] /\ (main_pc s = MReturn -> results s = [])).
Proof.
  intros He. pose proof (exec_Inv _ _ _ _ _ (Inv_init cli containers) He) as HI.
  split.
  { pose proof (exec_measure _ _ _ _ _ (Inv_init cli containers) He) as Hb.
    rewrite measure_init in Hb. lia. }
  split; [by apply (inv_no_panic _ _ _ HI)|].
  split; [by apply exec_completes|].
  split; [by apply halted_iff_returned|].
  split.
  - intros Hm. rewrite (inv_collected _ _ _ HI Hm). split.
    + apply collected_length.
    + intros i c. apply collected_lookup.
  - intros ->. pose proof (Inv_tasks_le _ _ _ HI) as Hle.
    assert (Ht : tasks s = []) by (apply nil_length_inv; simpl in Hle; lia).
    split; [done|]. split.
    + pose proof (inv_log_length _ _ _ HI) as Hl. rewrite Ht in Hl.
      apply nil_length_inv. simpl in Hl. lia.
    + intros Hm. by rewrite (inv_collected _ _ _ HI Hm).
Qed.

Lemma FetchContainerStatsParallel_ordered_witness :
  exists s,
    exec example_cli [example_gone; example_up] example_sched init = Some s
    /\ main_pc s = MReturn
    /\ results s !! 0%nat = Some ContainerStat_zero
    /\ results s !! 1%nat = Some (slot example_cli example_up).
Proof.
  destruct (exec example_cli [example_gone; example_up] example_sched init)
    as [s|] eqn:He; [|vm_compute in He; discriminate].
  exists s. split; [reflexivity|].
  destruct (FetchContainerStatsParallel_ordered example_cli
              [example_gone; example_up] example_sched s He)
    as (_ & _ & _ & _ & Hr & _).
  assert (Hm : main_pc s = MReturn).
  { vm_compute in He. injection He as <-. reflexivity. }
  split; [exact Hm|].
  destruct (Hr Hm) as [_ Hi]. split.
  - rewrite (Hi 0%nat example_gone eq_refl). vm_compute. reflexivity.
  - apply (Hi 1%nat example_up eq_refl).
Defined.

(** [C2] If the stats request for the container at index [k] fails, or its
    body does not decode, the run still never panics and can always be
    carried on to the [return]; the returned slice has full length, slot
    [k] holds the zero value (so its sample is the zero sample), and every
    other index whose fetch succeeded holds that container with its
    sample.  The function's result is the slice alone: there is no error
    for the caller to receive. *)
Theorem FetchContainerStatsParallel_partial_failure cli containers sched s k c :
  exec cli containers sched init = Some s ->
  containers !! k = Some c ->
  fetch_fails cli c ->
  main_pc s <> MPanic
  /\ (exists sched' s',
        exec cli containers sched' s = Some s' /\ main_pc s' = MReturn)
  /\ (main_pc s = MReturn ->
      length (results s) = length containers
      /\ results s !! k = Some ContainerStat_zero
      /\ (forall v, results s !! k = Some v -> Stats v = Sample_zero)
      /\ forall j c' stats, j <> k -> containers !! j = Some c' ->
           GetContainerStats cli (types.ID c') = (stats, None) ->
           results s !! j = Some {| Container := c'; Stats := stats |}).
Proof.
  intros He Hk Hfail.
  pose proof (exec_Inv _ _ _ _ _ (Inv_init cli containers) He) as HI.
  split; [by apply (inv_no_panic _ _ _ HI)|].
  split; [by apply exec_completes|].
  intros Hm. rewrite (inv_collected _ _ _ HI Hm).
  assert (Hz : collected cli containers !! k = Some ContainerStat_zero).
  { by rewrite (collected_lookup _ _ _ _ Hk), fetch_fails_slot. }
  split; [apply collected_length|]. split; [done|]. split.
  - intros v Hv. rewrite Hz in Hv. by simplify_eq.
  - intros j c' stats _ Hj Hg.
    by rewrite (collected_lookup _ _ _ _ Hj), (slot_ok _ _ _ Hg).
Qed.

Lemma FetchContainerStatsParallel_partial_failure_witness :
  exists s,
    exec example_cli [example_gone; example_up] example_sched init = Some s
    /\ main_pc s = MReturn
    /\ length (results s) = 2%nat
    /\ results s !! 0%nat = Some ContainerStat_zero.
Proof.
  destruct (exec example_cli [example_gone; example_up] example_sched init)
    as [s|] eqn:He; [|vm_compute in He; discriminate].
  exists s. split; [reflexivity|].
  assert (Hf : fetch_fails example_cli example_gone).
  { left. eexists _, _. vm_compute. reflexivity. }
  destruct (FetchContainerStatsParallel_partial_failure example_cli
              [example_gone; example_up] example_sched s 0%nat example_gone
              He eq_refl Hf) as (_ & _ & Hr).
  assert (Hm : main_pc s = MReturn).
  { vm_compute in He. injection He as <-. reflexivity. }
  split; [exact Hm|].
  destruct (Hr Hm) as (Hl & Hz & _). split; [exact Hl|exact Hz].
Defined.

(** [C9] In the returned slice, the slot of a container whose fetch
    succeeded has that very container in its [Container] field (and the
    fetched sample next to it); the slot of a container whose fetch failed
    has the zero-value container there: empty identifier, no names.  If the
    failed container's identifier is not empty, no slot of the result
    carries it. *)
Theorem FetchContainerStatsParallel_container_field cli containers sched s i c :
  exec cli containers sched init = Some s ->
  main_pc s = MReturn ->
  containers !! i = Some c ->
  exists v, results s !! i = Some v
    /\ (forall stats, GetContainerStats cli (types.ID c) = (stats, None) ->
          Container v = c /\ Stats v = stats)
    /\ (fetch_fails cli c ->
          Container v = types.zero
          /\ types.ID (Container v) = ""
          /\ types.Names (Container v) = []
          /\ (types.ID c <> "" ->
              forall j w, results s !! j = Some w ->
                types.ID (Container w) <> types.ID c)).
Proof.
  intros He Hm Hi.
  pose proof (exec_Inv _ _ _ _ _ (Inv_init cli containers) He) as HI.
  rewrite (inv_collected _ _ _ HI Hm).
  exists (slot cli c). split; [by apply collected_lookup|]. split.
  - intros stats Hg. by rewrite (slot_ok _ _ _ Hg).
  - intros Hf. rewrite (fetch_fails_slot _ _ Hf). do 3 (split; [done|]).
    intros Hne j w Hj. unfold collected in Hj.
    rewrite list_lookup_fmap in Hj.
    destruct (containers !! j) as [c'|] eqn:Hc'; simplify_eq/=.
    apply fetch_fails_iff in Hf as [err Hg]. unfold slot.
    destruct (GetContainerStats cli (types.ID c')) as [st [e|]] eqn:Hg'; simpl.
    + intros Heq. by rewrite <- Heq in Hne.
    + intros Heq. rewrite Heq in Hg'. congruence.
Qed.

Lemma FetchContainerStatsParallel_container_field_witness :
  exists s v,
    exec example_cli [example_gone; example_up] example_sched init = Some s
    /\ results s !! 1%nat = Some v /\ Container v = example_up.
Proof.
  destruct (exec example_cli [example_gone; example_up] example_sched init)
    as [s|] eqn:He; [|vm_compute in He; discriminate].
  assert (Hm : main_pc s = MReturn).
  { vm_compute in He. injection He as <-. reflexivity. }
  destruct (FetchContainerStatsParallel_container_field example_cli
              [example_gone; example_up] example_sched s 1%nat example_up
              He Hm eq_refl) as (v & Hv & Hok & _).
  exists s, v. split; [reflexivity|]. split; [exact Hv|].
  eapply Hok. vm_compute. reflexivity.
Defined.

(** ** The renderer on a zero-value slot *)

Section RendererFacts.
Variable Sprintf : string -> list Arg -> string.
Variable red green : string -> string.

Lemma PrintStatsHorizontally_zero stats :
  PrintStatsHorizontally Sprintf red green types.zero stats
  = Panicked [] "slice bounds out of range".
Proof. reflexivity. Qed.

Lemma PrintStatsVertically_zero stats :
  PrintStatsVertically Sprintf red green types.zero stats
  = Panicked [] "index out of range".
Proof. reflexivity. Qed.

Lemma Run_bind_panicked {A B} (f : A -> Run B) (m : Run A) :
  (forall a, exists out r, f a = Panicked out r) ->
  exists out r, Run_bind f m = Panicked out r.
Proof.
  intros Hf. destruct m as [out a|out r]; simpl; [|eauto].
  destruct (Hf a) as (out' & r & ->). eauto.
Qed.

Lemma print_rows_zero vertical s :
  ContainerStat_zero ∈ s ->
  exists out reason,
    print_rows Sprintf red green vertical s = Panicked out reason.
Proof.
  induction s as [|stat s IH]; intros Hin; [by apply elem_of_nil in Hin|].
  apply elem_of_cons in Hin as [<-|Hin].
  - simpl. destruct vertical.
    + rewrite PrintStatsVertically_zero. simpl. eauto.
    + rewrite PrintStatsHorizontally_zero. simpl. eauto.
  - simpl. apply Run_bind_panicked. intros _. by apply IH.
Qed.

Lemma render_zero vertical s :
  ContainerStat_zero ∈ s ->
  exists out reason, render Sprintf red green vertical s = Panicked out reason.
Proof.
  intros Hin. unfold render.
  apply Run_bind_panicked. intros _.
  apply Run_bind_panicked. intros _.
  by apply print_rows_zero.
Qed.

(** [C5] A pass of the monitoring loop in which the stats fetch of one
    of the monitored containers fails does log the failure, but it does
    not go on to the sleep and the next pass: the renderer meets the
    zero-value slot and panics ([c.ID[:12]] on the empty identifier in
    the horizontal layout, [c.Names[0]] on the nil names in the vertical
    one), and the pass ends in a crash. *)
Theorem pass_crashes_on_failed_fetch cli args vertical sched containers c p :
  resolve cli args = inl containers ->
  c ∈ containers ->
  fetch_fails cli c ->
  pass Sprintf red green cli args vertical sched = Some p ->
  ending p = Crash
  /\ (exists err, fetch_error_line c err ∈ stderr p).
Proof.
  intros Hres Hc Hf. unfold pass. rewrite Hres.
  destruct (FetchContainerStatsParallel cli containers sched) as [[s lines]|] eqn:HF;
    [|done].
  pose proof (FetchContainerStatsParallel_collected _ _ _ _ _ HF) as ->.
  assert (Hz : ContainerStat_zero ∈ collected cli containers).
  { rewrite <- (fetch_fails_slot _ _ Hf). unfold collected.
    by apply list_elem_of_fmap_2. }
  destruct (render_zero vertical _ Hz) as (out & reason & ->).
  intros [= <-]. simpl. split; [done|].
  unfold FetchContainerStatsParallel in HF.
  destruct (exec cli containers sched init) as [st|] eqn:He; [|done].
  destruct (main_pc st) eqn:Hm; try done. simplify_eq.
  pose proof (exec_Inv _ _ _ _ _ (Inv_init cli containers) He) as HI.
  apply list_elem_of_lookup in Hc as [i Hi].
  destruct (lookup_lt_is_Some_2 (tasks st) i) as [t Ht].
  { pose proof (inv_spawned _ _ _ HI) as Hsp. rewrite Hm in Hsp.
    apply lookup_lt_Some in Hi. lia. }
  destruct (inv_tasks _ _ _ HI _ _ Ht) as (_ & Hc' & _). simplify_eq.
  apply fetch_fails_iff in Hf as [err Hg]. exists err.
  apply elem_of_app. left. eapply (inv_logged _ _ _ HI); [done| |done].
  unfold past_send. by rewrite (returned_tasks_exited _ _ _ _ _ HI Hm Ht).
Qed.

End RendererFacts.

Lemma pass_crashes_on_failed_fetch_witness :
  exists p,
    pass example_Sprintf id id example_cli [] false example_sched = Some p
    /\ ending p = Crash.
Proof.
  destruct (pass example_Sprintf id id example_cli [] false example_sched)
    as [p|] eqn:Hp; [|vm_compute in Hp; discriminate].
  exists p. split; [reflexivity|].
  assert (Hf : fetch_fails example_cli example_gone).
  { left. eexists _, _. vm_compute. reflexivity. }
  apply (pass_crashes_on_failed_fetch example_Sprintf id id example_cli []
           false example_sched [example_gone; example_up] example_gone p
           eq_refl ltac:(left) Hf Hp).
Defined.

(** ** Repository and tag *)

Lemma append_String (a : ascii) (s t : string) :
  String a s +:+ t = String a (s +:+ t).
Proof. reflexivity. Qed.

Lemma not_contains_empty b : ~ contains b "".
Proof. intros (pre & post & H). by destruct pre. Qed.

Lemma contains_String b a s : contains b (String a s) <-> a = b \/ contains b s.
Proof.
  split.
  - intros (pre & post & H). destruct pre as [|a' pre].
    + left. by injection H.
    + right. rewrite append_String in H. injection H as _ ->. by exists pre, post.
  - intros [->|(pre & post & ->)].
    + by exists "", s.
    + by exists (String a pre), post.
Qed.

(** [LastIndex] finds the last occurrence, and says -1 exactly when there
    is none. *)
Lemma LastIndex_spec s b :
  (LastIndex s b = -1 /\ ~ contains b s)
  \/ (exists pre post, s = pre +:+ String b post
        /\ LastIndex s b = Z.of_nat (String.length pre)
        /\ ~ contains b post).
Proof.
  induction s as [|a s IH].
  - left. split; [done|apply not_contains_empty].
  - simpl. destruct IH as [[-> Hn]|(pre & post & -> & -> & Hn)].
    + simpl. destruct (Ascii.eqb_spec a b) as [->|Hne].
      * right. by exists "", s.
      * left. split; [done|]. intros [?|?]%contains_String; done.
    + right. exists (String a pre), post. split; [done|]. split; [|done].
      assert ((0 <=? Z.of_nat (String.length pre)) = true) as ->
        by (apply Z.leb_le; lia).
      simpl String.length. lia.
Qed.

Lemma substring_all s : substring 0 (String.length s) s = s.
Proof. induction s as [|a s IH]; simpl; [done|]. by rewrite IH. Qed.

Lemma slice_from_app pre b post :
  slice_from (pre +:+ String b post) (S (String.length pre)) = post.
Proof.
  unfold slice_from. induction pre as [|a pre IH].
  - simpl. rewrite Nat.sub_0_r. apply substring_all.
  - rewrite append_String. simpl String.length. simpl substring.
    simpl in IH. exact IH.
Qed.

Lemma get_app_length pre b post :
  String.get (String.length pre) (pre +:+ String b post) = Some b.
Proof. induction pre as [|a pre IH]; [done|]. rewrite append_String. exact IH. Qed.

Lemma length_app_String pre b post :
  String.length (pre +:+ String b post)
  = (String.length pre + S (String.length post))%nat.
Proof.
  induction pre as [|a pre IH]; [done|].
  rewrite append_String. simpl. by rewrite IH.
Qed.

Lemma get_app_r pre t n :
  String.get (String.length pre + n) (pre +:+ t) = String.get n t.
Proof. induction pre as [|a pre IH]; [done|]. rewrite append_String. exact IH. Qed.

Lemma get_contains n s b : String.get n s = Some b -> contains b s.
Proof.
  revert n. induction s as [|a s IH]; intros n H; [by destruct n|].
  apply contains_String. destruct n as [|n]; simpl in H.
  - left. by injection H.
  - right. by apply (IH n).
Qed.

Lemma LastIndex_none s b : ~ contains b s -> LastIndex s b = -1.
Proof.
  intros Hn. destruct (LastIndex_spec s b) as [[H _]|(pre & post & -> & _)]; [done|].
  destruct Hn. by exists pre, post.
Qed.

Lemma LastIndex_app pre b post :
  ~ contains b post ->
  LastIndex (pre +:+ String b post) b = Z.of_nat (String.length pre).
Proof.
  intros Hn. induction pre as [|a pre IH].
  - simpl. rewrite (LastIndex_none _ _ Hn). simpl. by rewrite Ascii.eqb_refl.
  - rewrite append_String. simpl LastIndex. rewrite IH.
    assert ((0 <=? Z.of_nat (String.length pre)) = true) as ->
      by (apply Z.leb_le; lia).
    simpl String.length. lia.
Qed.

Lemma not_contains_latest : ~ contains ":" "latest".
Proof.
  intros H. repeat (apply contains_String in H as [H|H]; [discriminate|]).
  by apply not_contains_empty in H.
Qed.

(** The test of the first branch: the last byte of [s] is [b]. *)
Lemma last_byte_iff s b :
  (0 <=? Z.of_nat (String.length s) - 1)
  && bool_decide (String.get (Z.to_nat (Z.of_nat (String.length s) - 1)) s = Some b)
  = true
  <-> exists r, s = r +:+ String b "".
Proof.
  rewrite andb_true_iff, Z.leb_le, bool_decide_eq_true. split.
  - intros [Hlen Hget].
    assert (Hn : Z.to_nat (Z.of_nat (String.length s) - 1)
                 = (String.length s - 1)%nat) by lia.
    rewrite Hn in Hget. clear Hn. revert Hlen Hget.
    induction s as [|a s IH]; [simpl; lia|]. intros _ Hget.
    destruct s as [|a' s].
    + simpl in Hget. injection Hget as ->. by exists "".
    + destruct IH as [r Hr]; [simpl; lia| |].
      * simpl in Hget. simpl. by rewrite Nat.sub_0_r in *.
      * exists (String a r). rewrite append_String. by rewrite <- Hr.
  - intros [r ->]. rewrite length_app_String. simpl String.length. split; [lia|].
    replace (Z.to_nat _) with (String.length r) by lia. apply get_app_length.
Qed.

(** [X1] A tag that is not empty and has no colon comes back from
    [splitRepoTag] with the repository it was joined to: the split is at
    the last colon, whatever colons the repository part has. *)
Theorem splitRepoTag_round_trip repo tag :
  tag <> "" -> ~ contains ":" tag ->
  splitRepoTag (repo +:+ String ":" tag) = (repo, tag).
Proof.
  intros Hne Hnc. unfold splitRepoTag.
  destruct (_ && _) eqn:Hlast.
  - exfalso. apply last_byte_iff in Hlast as [r Hr].
    assert (Hget : String.get (String.length repo + S (String.length tag - 1))
                     (repo +:+ String ":" tag) = Some ":"%char).
    { rewrite Hr.
      replace (String.length repo + S (String.length tag - 1))%nat
        with (String.length r).
      - apply get_app_length.
      - apply (f_equal String.length) in Hr.
        rewrite !length_app_String in Hr. simpl in Hr.
        destruct tag; [done|]. simpl in *. lia. }
    rewrite get_app_r in Hget. simpl in Hget.
    apply Hnc. by apply get_contains in Hget.
  - rewrite (LastIndex_app _ _ _ Hnc).
    assert ((0 <=? Z.of_nat (String.length repo)) = true) as ->
      by (apply Z.leb_le; lia).
    rewrite Nat2Z.id.
    replace (Z.to_nat (Z.of_nat (String.length repo) + 1))
      with (S (String.length repo)) by lia.
    by rewrite substring_prefix_append, slice_from_app.
Qed.

Lemma splitRepoTag_round_trip_witness :
  splitRepoTag ("registry.local:5000/app" +:+ String ":" "v2")
  = ("registry.local:5000/app", "v2")
  /\ splitRepoTag ("registry.local" +:+ String ":" "5000/app")
     = ("registry.local", "5000/app").
Proof.
  split; apply splitRepoTag_round_trip; try discriminate.
  - intros H. repeat (apply contains_String in H as [H|H]; [discriminate|]).
    by apply not_contains_empty in H.
  - intros H. repeat (apply contains_String in H as [H|H]; [discriminate|]).
    by apply not_contains_empty in H.
Defined.

(** [X2] Whatever it is given, [splitRepoTag] returns a tag that is not
    empty and has no colon.  Without a colon the input is the repository
    and the tag is "latest"; with a trailing colon the repository is the
    rest and the tag is "latest"; otherwise the input is repository, colon
    and tag. *)
Theorem splitRepoTag_parts repoTag :
  (splitRepoTag repoTag).2 <> ""
  /\ ~ contains ":" (splitRepoTag repoTag).2
  /\ ((~ contains ":" repoTag /\ splitRepoTag repoTag = (repoTag, "latest"))
      \/ (repoTag = (splitRepoTag repoTag).1 +:+ ":"
          /\ (splitRepoTag repoTag).2 = "latest")
      \/ (repoTag = (splitRepoTag repoTag).1
                    +:+ String ":" (splitRepoTag repoTag).2)).
Proof.
  unfold splitRepoTag. destruct (_ && _) eqn:Hlast.
  - simpl. split; [done|]. split; [apply not_contains_latest|].
    right. left. split; [|done].
    apply last_byte_iff in Hlast as [r ->].
    rewrite length_app_String. simpl String.length.
    replace (Z.to_nat _) with (String.length r) by lia.
    by rewrite substring_prefix_append.
  - destruct (LastIndex_spec repoTag ":") as [[-> Hn]|(pre & post & -> & -> & Hn)].
    + simpl. split; [done|]. split; [apply not_contains_latest|]. by left.
    + assert ((0 <=? Z.of_nat (String.length pre)) = true) as ->
        by (apply Z.leb_le; lia).
      rewrite Nat2Z.id.
      replace (Z.to_nat (Z.of_nat (String.length pre) + 1))
        with (S (String.length pre)) by lia.
      rewrite substring_prefix_append, slice_from_app. simpl.
      split; [|split; [done|by right; right]].
      intros ->. apply not_true_iff_false in Hlast. apply Hlast.
      apply last_byte_iff. by exists pre.
Qed.

(** ** The renderer, row by row *)

Lemma length_substring_0 n s :
  (n <= String.length s)%nat -> String.length (substring 0 n s) = n.
Proof.
  revert s. induction n as [|n IH]; intros s H; [by destruct s|].
  destruct s as [|a s]; simpl in *; [lia|]. rewrite IH; [done|lia].
Qed.

Lemma length_append (s t : string) :
  String.length (s +:+ t) = (String.length s + String.length t)%nat.
Proof. induction s as [|a s IH]; [done|]. rewrite append_String. simpl. by rewrite IH. Qed.

Section RowFacts.
Variable Sprintf : string -> list Arg -> string.
Variable red green : string -> string.

(** The row of a container that can be printed. *)
Lemma PrintStatsHorizontally_row c stats name names :
  (12 <= String.length (types.ID c))%nat ->
  types.Names c = name :: names ->
  let full := green (substring 0 12 (types.ID c)) +:+ " " +:+ name in
  let field := if decide (60 < String.length full)%nat
               then substring 0 57 full +:+ "..." else full in
  (String.length field <= 60)%nat
  /\ PrintStatsHorizontally Sprintf red green c stats
     = Done [stats_row Sprintf red field stats] tt.
Proof.
  intros Hge Hn. unfold PrintStatsHorizontally, slice_to. cbv zeta.
  destruct (decide (12 <= String.length (types.ID c))%nat); [|lia].
  rewrite Hn. simpl.
  set (full := green (substring 0 12 (types.ID c)) +:+ " " +:+ name).
  destruct (decide (60 < String.length full)%nat) as [Hlong|Hshort].
  - simpl. destruct (decide (57 <= String.length full)%nat); [|lia].
    simpl. split; [|done].
    rewrite length_append, length_substring_0 by lia. simpl. lia.
  - simpl. split; [lia|done].
Qed.

(** [X3] [PrintStatsHorizontally] panics exactly when the identifier has
    fewer than 12 bytes or the container has no name, and then it has
    printed nothing; otherwise it prints one row, and the field of the row
    that holds identifier and name has at most 60 bytes: the coloured
    12-byte identifier, a space and the first name, cut to 57 bytes and
    ["..."] when that is longer than 60. *)
Theorem PrintStatsHorizontally_outcome c stats :
  ((String.length (types.ID c) < 12)%nat ->
   PrintStatsHorizontally Sprintf red green c stats
   = Panicked [] "slice bounds out of range")
  /\ ((12 <= String.length (types.ID c))%nat -> types.Names c = [] ->
      PrintStatsHorizontally Sprintf red green c stats
      = Panicked [] "index out of range")
  /\ (forall name names,
        (12 <= String.length (types.ID c))%nat ->
        types.Names c = name :: names ->
        let full := green (substring 0 12 (types.ID c)) +:+ " " +:+ name in
        let field := if decide (60 < String.length full)%nat
                     then substring 0 57 full +:+ "..." else full in
        (String.length field <= 60)%nat
        /\ PrintStatsHorizontally Sprintf red green c stats
           = Done [stats_row Sprintf red field stats] tt).
Proof.
  split; [|split].
  - intros Hlt. unfold PrintStatsHorizontally, slice_to.
    by rewrite decide_False by lia.
  - intros Hge Hn. unfold PrintStatsHorizontally, slice_to.
    rewrite decide_True by lia. by rewrite Hn.
  - intros name names Hge Hn.
    exact (PrintStatsHorizontally_row c stats name names Hge Hn).
Qed.

(** Rows of containers that can be printed. *)
Lemma PrintStatsHorizontally_Done c stats :
  (12 <= String.length (types.ID c))%nat -> types.Names c <> [] ->
  PrintStatsHorizontally Sprintf red green c stats
  = Done (written (PrintStatsHorizontally Sprintf red green c stats)) tt.
Proof.
  intros Hge Hn. destruct (types.Names c) as [|name names] eqn:E; [done|].
  destruct (PrintStatsHorizontally_row c stats name names Hge E) as [_ ->].
  done.
Qed.


Lemma Run_bind_Done {A B} (f : A -> Run B) out a out' b :
  f a = Done out' b -> Run_bind f (Done out a) = Done (out ++ out') b.
Proof. simpl. by intros ->. Qed.

(** [X4] [ListImages] prints one line per tag of each image, in listing
    order, with the tag split by [splitRepoTag] and bytes 7 to 18 of the
    image identifier; an image without tags gets no line.  It panics, after
    the lines of the images before it, at the first image that has a tag
    and an identifier shorter than 19 bytes.  When the listing fails it
    prints nothing and returns the error, wrapped. *)
Theorem ListImages_lines images :
  ((forall i, i ∈ images -> image.RepoTags i <> [] ->
      (19 <= String.length (image.ID i))%nat) ->
   ListImages Sprintf (images, None)
   = Done (flat_map (fun i => map (image_line Sprintf i) (image.RepoTags i)) images)
       None)
  /\ (forall pre i post,
        images = pre ++ i :: post ->
        (forall j, j ∈ pre -> image.RepoTags j <> [] ->
           (19 <= String.length (image.ID j))%nat) ->
        image.RepoTags i <> [] ->
        (String.length (image.ID i) < 19)%nat ->
        ListImages Sprintf (images, None)
        = Panicked
            (flat_map (fun j => map (image_line Sprintf j) (image.RepoTags j)) pre)
            "slice bounds out of range")
  /\ (forall err,
        ListImages Sprintf (images, Some err)
        = Done [] (Some ("error listing images: " +:+ err))).
Proof.
  assert (Htags : forall i tags,
            (tags <> [] -> (19 <= String.length (image.ID i))%nat) ->
            ListImages_tags Sprintf i tags
            = Done (map (image_line Sprintf i) tags) tt).
  { intros i tags Hi. induction tags as [|tag tags IH]; [done|].
    simpl. destruct (splitRepoTag tag) as [repo tagName] eqn:Es.
    unfold slice. rewrite decide_True by (specialize (Hi ltac:(done)); lia).
    simpl. rewrite IH by (intros _; by apply Hi). simpl.
    unfold image_line. by rewrite Es. }
  assert (Hshort : forall i, image.RepoTags i <> [] ->
            (String.length (image.ID i) < 19)%nat ->
            ListImages_tags Sprintf i (image.RepoTags i)
            = Panicked [] "slice bounds out of range").
  { intros i Hn Hlt. destruct (image.RepoTags i) as [|tag tags]; [done|].
    simpl. destruct (splitRepoTag tag). unfold slice.
    by rewrite decide_False by lia. }
  assert (Hrange : forall l,
            (forall i, i ∈ l -> image.RepoTags i <> [] ->
               (19 <= String.length (image.ID i))%nat) ->
            ListImages_range Sprintf l
            = Done (flat_map (fun i => map (image_line Sprintf i) (image.RepoTags i)) l)
                tt).
  { induction l as [|i l IH]; intros Hl; [done|]. simpl.
    rewrite Htags by (apply Hl; left). simpl.
    rewrite IH by (intros j Hj; apply Hl; by right). done. }
  split; [|split].
  - intros Hall. unfold ListImages. rewrite Hrange by done. simpl.
    by rewrite app_nil_r.
  - intros pre i post -> Hpre Hn Hlt. unfold ListImages.
    assert (ListImages_range Sprintf (pre ++ i :: post)
            = Panicked
                (flat_map (fun j => map (image_line Sprintf j) (image.RepoTags j)) pre)
                "slice bounds out of range") as ->; [|done].
    induction pre as [|j pre IH]; simpl.
    + by rewrite Hshort.
    + rewrite Htags by (apply Hpre; left). simpl.
      rewrite IH by (intros k Hk; apply Hpre; by right). done.
  - done.
Qed.
Lemma IsThereStoppedContainers_range_true containers :
  IsThereStoppedContainers_range containers = true
  <-> exists c, c ∈ containers /\ types.State c = "exited".
Proof.
  induction containers as [|c l IH]; simpl.
  - split; [done|]. intros (c & Hc & _). by apply elem_of_nil in Hc.
  - unfold is_exited at 1. destruct (String.eqb_spec (types.State c) "exited") as [E|E].
    + split; [|done]. intros _. exists c. split; [left|done].
    + rewrite IH. split.
      * intros (c' & Hc' & E'). exists c'. split; [by right|done].
      * intros (c' & [->|Hc']%elem_of_cons & E'); [done|]. by exists c'.
Qed.

(** [X5] When the full listing succeeds, [IsThereStoppedContainers] prints
    nothing and answers whether some listed container is in state
    "exited"; when the listing fails it prints the error and still answers
    from the list it was handed. *)
Theorem IsThereStoppedContainers_spec cli containers :
  (ContainerList cli {| container.All := true |} = (containers, None) ->
   exists b, IsThereStoppedContainers cli = Done [] b
     /\ (b = true <-> exists c, c ∈ containers /\ types.State c = "exited"))
  /\ (forall err,
        ContainerList cli {| container.All := true |} = (containers, Some err) ->
        IsThereStoppedContainers cli
        = Done ["Error listing containers: " +:+ err]
            (IsThereStoppedContainers_range containers)).
Proof.
  unfold IsThereStoppedContainers. split.
  - intros ->. simpl. eexists. split; [reflexivity|].
    apply IsThereStoppedContainers_range_true.
  - intros err ->. reflexivity.
Qed.

Lemma ListStoppedContainers_range_rows containers :
  (forall c, c ∈ containers -> types.State c = "exited" ->
     (12 <= String.length (types.ID c))%nat /\ types.Names c <> []) ->
  ListStoppedContainers_range Sprintf red green containers
  = Done (flat_map
            (fun c => written (PrintStatsHorizontally Sprintf red green c Sample_zero))
            (filter (fun c => is_exited c = true) containers)) tt.
Proof.
  induction containers as [|c l IH]; intros Hl; [done|]. simpl.
  rewrite IH by (intros c' Hc'; apply Hl; by right).
  rewrite filter_cons. destruct (is_exited c) eqn:E.
  - destruct (Hl c ltac:(left) ltac:(by apply String.eqb_eq)) as [Hid Hn].
    rewrite PrintStatsHorizontally_Done by done.
    rewrite decide_True by done. reflexivity.
  - rewrite decide_False by done. reflexivity.
Qed.

(** [X6] When the full listing succeeds, [ListStoppedContainers] prints
    only "No stopped containers found" if no listed container is in state
    "exited"; otherwise it prints the header and then one row, with all
    figures zero, for each exited container and for no other, in listing
    order (the exited containers having identifiers of at least 12 bytes
    and a name). *)
Theorem ListStoppedContainers_rows cli containers :
  ContainerList cli {| container.All := true |} = (containers, None) ->
  ((forall c, c ∈ containers -> types.State c <> "exited") ->
   ListStoppedContainers Sprintf red green cli
   = Done ["No stopped containers found" +:+ LF] tt)
  /\ ((exists c, c ∈ containers /\ types.State c = "exited") ->
      (forall c, c ∈ containers -> types.State c = "exited" ->
         (12 <= String.length (types.ID c))%nat /\ types.Names c <> []) ->
      ListStoppedContainers Sprintf red green cli
      = Done (written (PrintHeader Sprintf "container")
              ++ flat_map
                   (fun c => written
                      (PrintStatsHorizontally Sprintf red green c Sample_zero))
                   (filter (fun c => is_exited c = true) containers)) tt).
Proof.
  intros HL. unfold ListStoppedContainers, IsThereStoppedContainers.
  rewrite HL. simpl. split.
  - intros Hnone.
    assert (IsThereStoppedContainers_range containers = false) as ->; [|done].
    apply not_true_iff_false. intros (c & Hc & E)%IsThereStoppedContainers_range_true.
    by apply (Hnone c).
  - intros Hsome Hwf.
    apply IsThereStoppedContainers_range_true in Hsome. rewrite Hsome.
    rewrite ListStoppedContainers_range_rows by done. reflexivity.
Qed.

End RowFacts.

Lemma PrintStatsHorizontally_outcome_witness :
  PrintStatsHorizontally example_Sprintf id id
    {| types.ID := "3f2a9c"; types.Names := ["/web"]; types.State := "exited" |}
    Sample_zero
  = Panicked [] "slice bounds out of range".
Proof.
  apply (proj1 (PrintStatsHorizontally_outcome example_Sprintf id id
                  {| types.ID := "3f2a9c"; types.Names := ["/web"];
                     types.State := "exited" |} Sample_zero)).
  simpl. lia.
Defined.

Lemma ListImages_lines_witness :
  ListImages example_Sprintf
    ([{| image.ID := "sha256:0123456789abcdef0123";
         image.RepoTags := ["app:v1"; "app"] |};
      {| image.ID := "sha256:dangling"; image.RepoTags := [] |}], None)
  = Done ["%-40s %-20s %-15s" +:+ LF; "%-40s %-20s %-15s" +:+ LF] None.
Proof.
  apply (ListImages_lines example_Sprintf
           [{| image.ID := "sha256:0123456789abcdef0123";
               image.RepoTags := ["app:v1"; "app"] |};
            {| image.ID := "sha256:dangling"; image.RepoTags := [] |}]).
  intros i [->|[->|[]%elem_of_nil]%elem_of_cons]%elem_of_cons Hn;
    [simpl; lia|done].
Defined.

Lemma IsThereStoppedContainers_spec_witness :
  IsThereStoppedContainers example_twins = Done [] true.
Proof.
  destruct (IsThereStoppedContainers_spec example_twins
              [example_first; example_second]) as [H _].
  destruct (H eq_refl) as (b & -> & Hb). f_equal. apply Hb.
  exists example_second. split; [right; left|reflexivity].
Defined.

Lemma ListStoppedContainers_rows_witness :
  ListStoppedContainers example_Sprintf id id example_twins
  = Done (written (PrintHeader example_Sprintf "container")
          ++ written (PrintStatsHorizontally example_Sprintf id id
                        example_second Sample_zero)) tt
  /\ ListStoppedContainers example_Sprintf id id example_cli
     = Done ["No stopped containers found" +:+ LF] tt.
Proof.
  split.
  - destruct (ListStoppedContainers_rows example_Sprintf id id example_twins
                [example_first; example_second] eq_refl) as [_ H].
    rewrite H.
    + reflexivity.
    + exists example_second. split; [right; left|reflexivity].
    + intros c [->|[->|[]%elem_of_nil]%elem_of_cons]%elem_of_cons E;
        [discriminate|split; [simpl; lia|done]].
  - destruct (ListStoppedContainers_rows example_Sprintf id id example_cli
                [example_gone; example_up] eq_refl) as [H _].
    apply H.
    intros c [->|[->|[]%elem_of_nil]%elem_of_cons]%elem_of_cons; discriminate.
Defined.

(** ** More on the fetch *)

(** A property that the first state has and every step keeps holds after
    every run. *)
Lemma exec_invariant cli containers (P : Machine -> Prop) :
  P init ->
  (forall a s s', Inv cli containers s -> P s ->
     fire cli containers a s = Some s' -> P s') ->
  forall sched s, exec cli containers sched init = Some s -> P s.
Proof.
  intros H0 Hstep sched.
  assert (Hgen : forall s0, Inv cli containers s0 -> P s0 ->
            forall s, exec cli containers sched s0 = Some s -> P s).
  { induction sched as [|a sched IH]; intros s0 HI HP s He; simplify_eq/=; [done|].
    destruct (fire cli containers a s0) as [s1|] eqn:Hf; [|done].
    apply (IH s1); eauto using fire_Inv. }
  intros s. apply Hgen; [apply Inv_init|done].
Qed.

(** Only the receiving loop's exit reaches the [return]. *)
Lemma fire_to_return cli containers a s s' :
  fire cli containers a s = Some s' -> main_pc s' = MReturn ->
  main_pc s <> MReturn ->
  statsChan s = [] /\ statsChan s' = statsChan s.
Proof.
  unfold fire. intros Hf Hr Hn.
  destruct (main_pc s) eqn:Hm; try done; destruct a as [|i|].
  all: try (unfold step_main in Hf; rewrite Hm in Hf;
            repeat case_match; simplify_eq/=; done).
  all: try (unfold step_closer in Hf; repeat case_match; simplify_eq/=; congruence).
  all: unfold step_task in Hf; repeat case_match; simplify_eq/=; congruence.
Qed.

Lemma returned_chan_empty cli containers sched s :
  exec cli containers sched init = Some s -> main_pc s = MReturn ->
  statsChan s = [].
Proof.
  revert s.
  apply (exec_invariant cli containers
           (fun s => main_pc s = MReturn -> statsChan s = [])); [done|].
  intros a s0 s1 HI0 HP Hf Hr.
  destruct (MReturn_dec (main_pc s0)) as [Hm0|Hm0].
  - pose proof (proj2 (halted_iff_returned _ _ _ HI0) Hm0 a) as Hh.
    by rewrite Hh in Hf.
  - destruct (fire_to_return _ _ _ _ _ Hf Hr Hm0) as [H0 ->]. done.
Qed.

(** [X7] The wait-for-all barrier.  The channel is closed only once all
    [N] tasks have been started and have run to their end; and when the
    call returns, moreover, the closing goroutine has ended, the wait
    group is at zero and the channel is empty: nothing is left running and
    no message is lost. *)
Theorem FetchContainerStatsParallel_barrier cli containers sched s :
  exec cli containers sched init = Some s ->
  (closed s = true ->
   length (tasks s) = length containers
   /\ forall t, t ∈ tasks s -> t_pc t = TExited)
  /\ (main_pc s = MReturn ->
      closed s = true /\ closer_pc s = CExited /\ wg s = O
      /\ statsChan s = []).
Proof.
  intros He.
  pose proof (exec_Inv _ _ _ _ _ (Inv_init cli containers) He) as HI.
  assert (Hclosed : closed s = true ->
            closer_pc s = CExited /\ wg s = O
            /\ length (tasks s) = length containers
            /\ forall t, t ∈ tasks s -> t_pc t = TExited).
  { intros Hcd. pose proof (inv_closer _ _ _ HI) as Hcl.
    pose proof (inv_wg _ _ _ HI) as Hwg. pose proof (inv_spawned _ _ _ HI) as Hsp.
    destruct (closer_pc s); simpl in Hcl;
      destruct Hcl as (Hs & Hc & Hw) || destruct Hcl as (Hs & Hc); try congruence.
    split; [done|]. split; [done|].
    destruct (main_pc s); try done; (split; [done|]).
    all: intros t [i Ht]%list_elem_of_lookup.
    all: assert (Hs0 : sum_with live_w (tasks s) = O) by lia.
    all: pose proof (sum_with_zero _ _ _ _ Hs0 Ht) as Hz.
    all: rewrite live_w_unfold in Hz; unfold exited in Hz; by destruct (t_pc t). }
  split.
  - intros Hcd. destruct (Hclosed Hcd) as (_ & _ & ? & ?). done.
  - intros Hm. pose proof (inv_returned _ _ _ HI Hm) as Hcd.
    destruct (Hclosed Hcd) as (? & ? & _). do 3 (split; [done|]).
    by eapply returned_chan_empty.
Qed.

Lemma FetchContainerStatsParallel_barrier_witness :
  exists s,
    exec example_cli [example_gone; example_up] example_sched init = Some s
    /\ statsChan s = [] /\ wg s = O.
Proof.
  destruct (exec example_cli [example_gone; example_up] example_sched init)
    as [s|] eqn:He; [|vm_compute in He; discriminate].
  exists s. split; [reflexivity|].
  assert (Hm : main_pc s = MReturn).
  { vm_compute in He. injection He as <-. reflexivity. }
  destruct (FetchContainerStatsParallel_barrier example_cli
              [example_gone; example_up] example_sched s He) as [_ H].
  destruct (H Hm) as (_ & _ & Hw & Hc). split; [exact Hc|exact Hw].
Defined.

Lemma logged_w_unfold cli t :
  logged_w cli t = if past_send t && failsb cli (t_c t) then 1%nat else 0%nat.
Proof. done. Qed.

Lemma LogInv_init cli containers : LogInv cli containers init.
Proof. split; [done|]. intros line H. by apply elem_of_nil in H. Qed.

Lemma fire_LogInv cli containers a s s' :
  Inv cli containers s -> LogInv cli containers s ->
  fire cli containers a s = Some s' -> LogInv cli containers s'.
Proof.
  intros HI [Hlen Hlines] Hf. unfold fire in Hf.
  assert (Hstep : match a with
                  | AMain => step_main containers s
                  | ATask i => step_task cli containers i s
                  | ACloser => step_closer s
                  end = Some s') by (by destruct (main_pc s)).
  clear Hf. destruct a as [|i|].
  - unfold step_main in Hstep.
    repeat case_match; simplify_eq/=; try (by split).
    split; simpl; [|done]. rewrite sum_with_app, logged_w_unfold. simpl. lia.
  - unfold step_task in Hstep.
    destruct (tasks s !! i) as [t|] eqn:Ht; [|done].
    destruct (inv_tasks _ _ _ HI _ _ Ht) as (_ & Hc & Hok). unfold pc_ok in Hok.
    pose proof (fun pc => sum_with_insert (logged_w cli) _ _ _
                  {| t_i := t_i t; t_c := t_c t; t_pc := pc |} Ht) as Hsum.
    rewrite logged_w_unfold in Hsum. unfold past_send in Hsum.
    assert (Hnew : forall pc, logged_w cli {| t_i := t_i t; t_c := t_c t; t_pc := pc |}
              = if match pc with TDeferred | TExited => true | _ => false end
                   && failsb cli (t_c t) then 1%nat else 0%nat) by done.
    destruct (t_pc t) as [|err|stats| |] eqn:Hpc; try done.
    + destruct (GetContainerStats cli (types.ID (t_c t))) as [stats [err|]];
        simplify_eq/=.
      * split; simpl; [|done]. specialize (Hsum (TLog err)).
        rewrite Hnew in Hsum. simpl in Hsum. lia.
      * split; simpl; [|done]. specialize (Hsum (TSend stats)).
        rewrite Hnew in Hsum. simpl in Hsum. lia.
    + simplify_eq/=. split; simpl.
      * specialize (Hsum TDeferred). rewrite Hnew in Hsum. simpl in Hsum.
        unfold failsb in Hsum. rewrite Hok in Hsum.
        rewrite length_app. simpl. lia.
      * intros line [Hl|Hl%list_elem_of_singleton]%elem_of_app; [by apply Hlines|].
        exists (t_c t), err. split; [by eapply list_elem_of_lookup_2|done].
    + destruct (closed s); simplify_eq/=; [by split|].
      destruct (decide _); simplify_eq/=. split; simpl; [|done].
      specialize (Hsum TDeferred). rewrite Hnew in Hsum. simpl in Hsum.
      unfold failsb in Hsum. rewrite Hok in Hsum. simpl in Hsum. lia.
    + destruct (wg s); simplify_eq/=; [by split|]. split; simpl; [|done].
      specialize (Hsum TExited). rewrite Hnew in Hsum. simpl in Hsum. lia.
  - unfold step_closer in Hstep. repeat case_match; simplify_eq/=; by split.
Qed.

Lemma exec_LogInv cli containers sched s :
  exec cli containers sched init = Some s -> LogInv cli containers s.
Proof.
  revert s. apply exec_invariant; [apply LogInv_init|].
  intros a s0 s1 HI HP Hf. by eapply fire_LogInv.
Qed.

(** Tasks that stand one to one for the containers and are all past their
    sends have logged once per failing container. *)
Lemma sum_logged_w cli tasks containers :
  length tasks = length containers ->
  (forall i t, tasks !! i = Some t ->
     containers !! i = Some (t_c t) /\ past_send t = true) ->
  sum_with (logged_w cli) tasks
  = length (filter (fun c => failsb cli c = true) containers).
Proof.
  revert containers. induction tasks as [|t tasks IH]; intros [|c containers] Hlen H;
    simplify_eq/=; [done|].
  destruct (H O t eq_refl) as [Hc Hp]. simplify_eq/=.
  rewrite (IH containers) by (done || intros i t' Ht'; apply (H (S i) t' Ht')).
  rewrite filter_cons, logged_w_unfold, Hp. simpl.
  destruct (failsb cli (t_c t)); [by rewrite decide_True|by rewrite decide_False].
Qed.

Lemma filter_failsb_nil cli containers :
  (forall c, c ∈ containers -> failsb cli c = false) ->
  filter (fun c => failsb cli c = true) containers = [].
Proof.
  induction containers as [|c l IH]; intros H; [done|].
  rewrite filter_cons, decide_False.
  - apply IH. intros c' Hc'. apply H. by right.
  - rewrite (H c); [done|left].
Qed.

(** At the return the log has one line per failed fetch. *)
Lemma log_length_returned cli containers sched s :
  exec cli containers sched init = Some s ->
  main_pc s = MReturn ->
  length (log s) = length (filter (fun c => failsb cli c = true) containers).
Proof.
  intros He Hm.
  pose proof (exec_Inv _ _ _ _ _ (Inv_init cli containers) He) as HI.
  destruct (exec_LogInv _ _ _ _ He) as [Hlen _].
  pose proof (inv_spawned _ _ _ HI) as Hsp. rewrite Hm in Hsp.
  rewrite Hlen. apply sum_logged_w; [done|].
  intros i t Ht. destruct (inv_tasks _ _ _ HI _ _ Ht) as (_ & Hc & _).
  split; [done|]. unfold past_send.
  by rewrite (returned_tasks_exited _ _ _ _ _ HI Hm Ht).
Qed.

(** [X8] When the call returns, the log holds exactly one line per
    container whose fetch failed: as many lines as failures, the error
    line of every failed container among them, and no line that is not
    the error line of a listed container that failed.  With no failure the
    log is empty. *)
Theorem FetchContainerStatsParallel_log cli containers sched s :
  exec cli containers sched init = Some s ->
  main_pc s = MReturn ->
  length (log s) = length (filter (fun c => failsb cli c = true) containers)
  /\ (forall c stats err, c ∈ containers ->
        GetContainerStats cli (types.ID c) = (stats, Some err) ->
        fetch_error_line c err ∈ log s)
  /\ (forall line, line ∈ log s ->
        exists c err, c ∈ containers
          /\ (GetContainerStats cli (types.ID c)).2 = Some err
          /\ line = fetch_error_line c err)
  /\ ((forall c, c ∈ containers -> failsb cli c = false) -> log s = []).
Proof.
  intros He Hm.
  pose proof (exec_Inv _ _ _ _ _ (Inv_init cli containers) He) as HI.
  destruct (exec_LogInv _ _ _ _ He) as [Hlen Hlines].
  pose proof (inv_spawned _ _ _ HI) as Hsp. rewrite Hm in Hsp.
  assert (Hpast : forall i t, tasks s !! i = Some t ->
            containers !! i = Some (t_c t) /\ past_send t = true).
  { intros i t Ht. destruct (inv_tasks _ _ _ HI _ _ Ht) as (_ & Hc & _).
    split; [done|]. unfold past_send.
    by rewrite (returned_tasks_exited _ _ _ _ _ HI Hm Ht). }
  pose proof (log_length_returned _ _ _ _ He Hm) as Hcount.
  split; [done|]. split; [|split; [done|]].
  - intros c stats err [i Hi]%list_elem_of_lookup Hg.
    destruct (lookup_lt_is_Some_2 (tasks s) i) as [t Ht].
    { apply lookup_lt_Some in Hi. lia. }
    destruct (Hpast _ _ Ht) as [Hc Hp]. simplify_eq.
    by eapply (inv_logged _ _ _ HI).
  - intros Hnone. apply nil_length_inv. rewrite Hcount.
    by rewrite filter_failsb_nil.
Qed.

Lemma FetchContainerStatsParallel_log_witness :
  exists s,
    exec example_cli [example_gone; example_up] example_sched init = Some s
    /\ length (log s) = 1%nat
    /\ fetch_error_line example_gone "No such container" ∈ log s.
Proof.
  destruct (exec example_cli [example_gone; example_up] example_sched init)
    as [s|] eqn:He; [|vm_compute in He; discriminate].
  exists s. split; [reflexivity|].
  assert (Hm : main_pc s = MReturn).
  { vm_compute in He. injection He as <-. reflexivity. }
  destruct (FetchContainerStatsParallel_log example_cli
              [example_gone; example_up] example_sched s He Hm)
    as (Hlen & Hin & _).
  split.
  - rewrite Hlen. vm_compute. reflexivity.
  - apply (Hin example_gone Sample_zero); [left|vm_compute; reflexivity].
Defined.

(** ** A pass of the monitoring loop *)

Section PassFacts.
Variable Sprintf : string -> list Arg -> string.
Variable red green : string -> string.



End PassFacts.


(** [X10] The passes that fetch nothing.  With a specifier that names no
    listed container the pass logs the not-found error and goes straight
    on to the next pass, without the one-second sleep; so it does when the
    listing of running containers fails.  Only the empty listing is
    followed by the sleep.  A specifier that resolves makes the pass fetch
    that one container. *)
Theorem pass_without_fetch Sprintf red green cli vertical sched :
  (forall spec rest listing,
     ContainerList cli {| container.All := true |} = (listing, None) ->
     Forall (fun c => ~ matches spec c) listing ->
     pass Sprintf red green cli (spec :: rest) vertical sched
     = Some {| ending := Continue; stdout := [];
               stderr := ["Error finding container: " +:+ NotFound spec] |})
  /\ (forall l err,
        ContainerList cli ReturnListOptions = (l, Some err) ->
        pass Sprintf red green cli [] vertical sched
        = Some {| ending := Continue; stdout := [];
                  stderr := ["Error listing containers: " +:+ err] |})
  /\ (ContainerList cli ReturnListOptions = ([], None) ->
      pass Sprintf red green cli [] vertical sched
      = Some {| ending := SleepContinue; stdout := [];
                stderr := ["No containers found"] |})
  /\ (forall spec rest c,
        FindContainer cli spec = (c, None) ->
        resolve cli (spec :: rest) = inl [c]).
Proof.
  split; [|split; [|split]].
  - intros spec rest listing HL Hnone%FindContainer_range_None.
    unfold pass, resolve, FindContainer. by rewrite HL, Hnone.
  - intros l err HL. unfold pass, resolve. by rewrite HL.
  - intros HL. unfold pass, resolve. by rewrite HL.
  - intros spec rest c Hf. unfold resolve. by rewrite Hf.
Qed.

Lemma pass_without_fetch_witness :
  pass example_Sprintf id id example_twins ["nothing"] false []
  = Some {| ending := Continue; stdout := [];
            stderr := ["Error finding container: " +:+ NotFound "nothing"] |}.
Proof.
  destruct (pass_without_fetch example_Sprintf id id example_twins false [])
    as [H _].
  apply (H "nothing" [] [example_first; example_second] eq_refl).
  repeat constructor; intros [H3|H3]%matches_test; vm_compute in H3; discriminate.
Defined.

(** ** The range of the decoded figures *)

(** [float64] of a positive [uint64] has exponent at most 11, or is
    [2^64]. *)
Lemma binary_round_uint64 p :
  Z.pos p < 2 ^ 64 ->
  exists m e, binary_round prec emax false p 0 = S754_finite false m e
    /\ Z.pos (digits2_pos m) = 53 /\ -52 <= e
    /\ (e <= 11 \/ (e = 12 /\ m = (2 ^ 52)%positive)).
Proof.
  intros Hp.
  pose proof (digits2_pos_bounds p) as [Hlo Hhi].
  set (d := Z.pos (digits2_pos p)) in *.
  assert (Hd : 1 <= d) by (unfold d; lia).
  assert (H64 : d <= 64).
  { destruct (Z.le_gt_cases d 64) as [|Hgt]; [done|].
    assert (2 ^ 64 <= 2 ^ (d - 1)) by (apply Z.pow_le_mono_r; lia). lia. }
  unfold binary_round. fold d. rewrite fexp_normal by lia.
  unfold shl_align. replace (d + 0 - 53 - 0) with (d - 53) by lia.
  destruct (d - 53) as [|k|k] eqn:Hk.
  - rewrite binary_round_aux_53 by (fold d; lia). simpl.
    exists p, 0. split; [done|]. split; [fold d; lia|]. split; [lia|]. left. lia.
  - rewrite binary_round_aux_finish.
    assert (Hs : shr_fexp prec emax (Z.pos p) 0 loc_Exact
                 = (SpecFloat.iter_pos shr_1 k
                      {| shr_m := Z.pos p; shr_r := false; shr_s := false |},
                    Z.pos k)).
    { unfold shr_fexp, Zdigits2. fold d. rewrite fexp_normal by lia.
      replace (d + 0 - 53 - 0) with (Z.pos k) by lia. reflexivity. }
    rewrite Hs. simpl fst. simpl snd.
    destruct (iter_pos_shr_1_m k {| shr_m := Z.pos p; shr_r := false; shr_s := false |})
      as [Em _]; [simpl; lia|].
    simpl shr_m in Em at 2. rewrite Z.shiftr_div_pow2 in Em by lia.
    set (mrs := SpecFloat.iter_pos shr_1 k _) in *.
    assert (Hpow : 2 ^ (d - 1) = 2 ^ 52 * 2 ^ Z.pos k).
    { rewrite <- Z.pow_add_r by lia. f_equal. lia. }
    assert (Hpow' : 2 ^ d = 2 ^ 53 * 2 ^ Z.pos k).
    { rewrite <- Z.pow_add_r by lia. f_equal. lia. }
    assert (Hk0 : 0 < 2 ^ Z.pos k) by (apply Z.pow_pos_nonneg; lia).
    assert (Hm : 2 ^ 52 <= shr_m mrs < 2 ^ 53).
    { rewrite Em. split.
      - apply Z.div_le_lower_bound; [done|]. lia.
      - apply Z.div_lt_upper_bound; [done|]. lia. }
    assert (El : forall x, x <= 12 -> (x <=? 971) = true)
      by (intros x Hx; apply Z.leb_le; lia).
    destruct (round_nearest_even_range (shr_m mrs) (loc_of_shr_record mrs)) as [->| ->].
    + destruct (shr_m mrs) as [|q|q] eqn:Eq; [lia| |lia].
      rewrite finish_53; [|by apply digits2_pos_unique|lia].
      rewrite El by lia. exists q, (Z.pos k).
      split; [done|]. split; [by apply digits2_pos_unique|]. split; [lia|]. left. lia.
    + destruct (Z.eq_dec (shr_m mrs + 1) (2 ^ 53)) as [E53|N53].
      * rewrite E53. change (2 ^ 53) with (Z.pos (2 ^ 52)~0).
        rewrite finish_54; [|done|lia].
        rewrite El by lia. exists (2 ^ 52)%positive, (Z.pos k + 1).
        split; [done|]. split; [done|]. split; [lia|].
        destruct (Z.eq_dec (Z.pos k) 11); [right; split; [lia|done]|left; lia].
      * destruct (shr_m mrs + 1) as [|q|q] eqn:Eq; [lia| |lia].
        rewrite finish_53; [|apply digits2_pos_unique; lia|lia].
        rewrite El by lia. exists q, (Z.pos k).
        split; [done|]. split; [apply digits2_pos_unique; lia|]. split; [lia|].
        left. lia.
  - assert (Hdk : Z.pos (digits2_pos (Pos.iter xO p k)) = 53).
    { rewrite digits2_pos_iter_xO. fold d. lia. }
    rewrite binary_round_aux_53 by (done || lia).
    assert ((d + 0 - 53 <=? 971) = true) as -> by (apply Z.leb_le; lia).
    exists (Pos.iter xO p k), (d + 0 - 53).
    split; [done|]. split; [done|]. split; [lia|]. left. lia.
Qed.

Lemma float64_MiB_range z : uint64 z -> in_MiB_range (float64 z / 1024 / 1024).
Proof.
  intros Hz. rewrite float64_div_MiB by done. unfold in_MiB_range.
  rewrite !leb_spec, div_spec, Prim2SF_1048576.
  replace (Prim2SF 0) with (S754_zero false) by (vm_compute; reflexivity).
  replace (Prim2SF 17592186044416) with (S754_finite false (2 ^ 52) (-8))
    by (vm_compute; reflexivity).
  destruct Hz as [H0 H64]. destruct z as [|p|p]; [by vm_compute| |lia].
  destruct (binary_round_uint64 p H64) as (m & e & Hb & Hd & He & Hhi).
  assert (Hx : Prim2SF (float64 (Z.pos p)) = S754_finite false m e).
  { unfold float64. simpl. rewrite Hb. apply Prim2SF_SF2Prim.
    apply valid_binary_53; [done|lia]. }
  rewrite Hx, (SFdiv_pow2 false m e 20) by (done || lia).
  split; [done|]. unfold SFleb, SFcompare.
  destruct Hhi as [Hle|[-> ->]].
  - assert ((e - 20 ?= -8) = Lt) as -> by (apply Z.compare_lt_iff; lia). done.
  - done.
Qed.

(** [X11] Every figure of a decoded snapshot whose counters are [uint64]
    values lies between 0 and [2^44] megabytes as a [float64]: the decoder
    never yields a negative number, a NaN or an infinity for memory usage,
    memory limit or network traffic. *)
Theorem GetContainerStats_figures_in_range cli id statsJSON :
  ContainerStats cli id = (Json statsJSON, None) ->
  uint64 (container.Usage (container.MemoryStats statsJSON)) ->
  uint64 (container.Limit (container.MemoryStats statsJSON)) ->
  (forall eth0, container.Networks statsJSON !! "eth0" = Some eth0 ->
     uint64 (container.RxBytes eth0) /\ uint64 (container.TxBytes eth0)) ->
  exists sample, GetContainerStats cli id = (sample, None)
    /\ in_MiB_range (MemoryUsage sample)
    /\ in_MiB_range (MemoryLimit sample)
    /\ in_MiB_range (NetworkRx sample)
    /\ in_MiB_range (NetworkTx sample).
Proof.
  intros Hc Hu Hl Hn. unfold GetContainerStats. rewrite Hc. simpl.
  eexists. split; [reflexivity|]. simpl.
  split; [by apply float64_MiB_range|]. split; [by apply float64_MiB_range|].
  unfold map_index.
  destruct (container.Networks statsJSON !! "eth0") as [eth0|] eqn:E; simpl.
  - destruct (Hn eth0 eq_refl). split; by apply float64_MiB_range.
  - split; split; vm_compute; reflexivity.
Qed.

Lemma GetContainerStats_figures_in_range_witness :
  exists sample,
    GetContainerStats example_cli (types.ID example_up) = (sample, None)
    /\ in_MiB_range (MemoryUsage sample) /\ in_MiB_range (NetworkTx sample).
Proof.
  destruct (GetContainerStats_figures_in_range example_cli (types.ID example_up)
              (snapshot 20 10 200 100 [5; 5; 5; 5] 1048576 2097152
                 {["eth0" := {| container.RxBytes := 3145728;
                                container.TxBytes := 524288 |}]}))
    as (sample & Hs & Hu & _ & _ & Ht).
  - vm_compute. reflexivity.
  - unfold uint64. simpl. lia.
  - unfold uint64. simpl. lia.
  - intros eth0 H. vm_compute in H. injection H as <-.
    unfold uint64. simpl. lia.
  - exists sample. split; [exact Hs|]. split; [exact Hu|exact Ht].
Defined.

(** ** The lifecycle commands *)





Lemma FindContainer_error cli spec c e :
  FindContainer cli spec = (c, Some e) -> c = types.zero.
Proof.
  unfold FindContainer. destruct (ContainerList _ _) as [l [err|]].
  - by intros [= <- _].
  - destruct (FindContainer_range _ _); by intros [= <-].
Qed.








Lemma GetDockerPlatform_GOARCH GOARCH :
  GetDockerPlatform GOARCH = {| v1.OS := "linux"; v1.Architecture := GOARCH |}.
Proof.
  unfold GetDockerPlatform. simpl.
  destruct (String.eqb GOARCH "amd64") eqn:E1.
  { by apply String.eqb_eq in E1 as ->. }
  destruct (String.eqb GOARCH "arm64") eqn:E2; [|done].
  by apply String.eqb_eq in E2 as ->.
Qed.



(** [X16] When the daemon refuses to create the container, [RunContainer]
    returns that error and sends nothing else: no lookup result is used and
    no start is requested.  When the container is created but the lookup
    of its name fails, the start is still requested, for the empty
    identifier, and the lookup's error is dropped: the result is the
    daemon's answer to that start. *)
Theorem RunContainer_failures cli d GOARCH image name :
  let create :=
    ContainerCreate image ["/bin/sh"; "-c"; "while :; do sleep 1; done"]
      {| v1.OS := "linux"; v1.Architecture := GOARCH |} name in
  (forall e, d create = Some e ->
     RunContainer cli d GOARCH image name = ([Requested create], Some e))
  /\ (forall e, d create = None -> (FindContainer cli name).2 = Some e ->
        RunContainer cli d GOARCH image name
        = ([Requested create; Requested (ContainerStart "")],
           d (ContainerStart ""))).
Proof.
  intros create. unfold RunContainer. rewrite GetDockerPlatform_GOARCH.
  fold create. simpl. unfold Trace_bind, request. split.
  - intros e ->. done.
  - intros e -> He. destruct (FindContainer cli name) as [c o] eqn:Hf.
    simpl in He. subst o. by apply FindContainer_error in Hf as ->.
Qed.

Lemma RunContainer_failures_witness :
  RunContainer example_down example_daemon "arm64" "nginx" "web"
  = ([Requested (ContainerCreate "nginx"
                   ["/bin/sh"; "-c"; "while :; do sleep 1; done"]
                   {| v1.OS := "linux"; v1.Architecture := "arm64" |} "web");
      Requested (ContainerStart "")],
     example_daemon (ContainerStart "")).
Proof.
  apply (proj2 (RunContainer_failures example_down example_daemon
                  "arm64" "nginx" "web")
           "Cannot connect to the Docker daemon").
  - reflexivity.
  - reflexivity.
Defined.

(** ** The dispatch of [main] *)

(** [X17] Called with exactly two words after the program name, the first
    of which is not [build], [main] panics on [os.Args[3]] before anything
    is sent or printed: so for [run] with an image and no name, for a
    lifecycle command without its specifier, and for a flag followed by a
    container specifier such as [-v my_container]. *)
Theorem main_commands_two_words print_error cli d GOARCH osArgs :
  length osArgs = 3%nat -> osArgs !! 1%nat <> Some "build" ->
  main_commands print_error cli d GOARCH osArgs
  = Panics [] "index out of range".
Proof.
  intros Hlen Hb.
  destruct osArgs as [|a0 [|a1 [|a2 [|a3 l]]]]; simplify_eq/=.
  unfold main_commands. simpl.
  destruct (String.eqb a1 "build") eqn:E.
  { apply String.eqb_eq in E as ->. done. }
  by destruct (String.eqb a1 "run").
Qed.

Lemma main_commands_two_words_witness :
  main_commands (fun e => e) example_cli example_daemon "amd64"
    ["docker-monitor"; "-v"; "my_container"]
  = Panics [] "index out of range".
Proof.
  apply (main_commands_two_words (fun e => e) example_cli example_daemon "amd64"
           ["docker-monitor"; "-v"; "my_container"]).
  - reflexivity.
  - discriminate.
Defined.

(** ** The tasks never wait *)

(** [X18] A fetching goroutine never waits: in every state a run can
    reach, each started task that has not ended can take its next step, and
    that step is not a panic.  The send in particular never blocks (the
    channel has room for one message per container) and never meets a
    closed channel, and [wg.Done()] never brings the counter below zero.
    Only the calling goroutine and the closing one ever wait. *)
Theorem FetchContainerStatsParallel_tasks_never_wait
    cli containers sched s i t :
  exec cli containers sched init = Some s ->
  tasks s !! i = Some t -> t_pc t <> TExited ->
  exists s', fire cli containers (ATask i) s = Some s' /\ main_pc s' <> MPanic.
Proof.
  intros He Ht Hpc.
  pose proof (exec_Inv _ _ _ _ _ (Inv_init cli containers) He) as HI.
  assert (Hfire : exists s', fire cli containers (ATask i) s = Some s').
  { pose proof (inv_no_panic _ _ _ HI) as Hnp.
    pose proof (inv_wg _ _ _ HI) as Hwg.
    pose proof (inv_closer _ _ _ HI) as Hcl.
    pose proof (inv_capacity _ _ _ HI) as Hcap.
    pose proof (inv_tasks _ _ _ HI) as Htasks.
    pose proof (sum_with_ge live_w _ _ _ Ht) as Hlive.
    assert (Hl1 : live_w t = 1%nat).
    { rewrite live_w_unfold. unfold exited. by destruct (t_pc t). }
    assert (Hw : (0 < wg s)%nat) by lia.
    assert (Hcd : closed s = false).
    { destruct (closer_pc s); simpl in Hcl; try tauto.
      destruct Hcl as (_ & _ & ?). lia. }
    assert (Hlen : (length (tasks s) <= length containers)%nat).
    { destruct (tasks s) as [|t0 l] eqn:Hts using rev_ind; [simpl; lia|].
      clear IHl. rewrite length_app. simpl.
      destruct (Htasks (length l) t0) as (_ & Hc & _).
      { rewrite lookup_app_r by lia. by rewrite Nat.sub_diag. }
      apply lookup_lt_Some in Hc. lia. }
    unfold fire. destruct (main_pc s) eqn:Hm; try done.
    all: unfold step_task; rewrite Ht.
    all: destruct (t_pc t) as [|err|stats| |] eqn:Hp; try done; eauto.
    all: try (destruct (GetContainerStats cli (types.ID (t_c t))) as [? [?|]]; by eauto).
    all: try (rewrite Hcd; destruct (decide _) as [|Hfull]; [by eauto|];
              exfalso; apply Hfull;
              assert (sum_with past_w (tasks s) < length (tasks s))%nat; [|lia];
              apply (sum_with_lt_length _ _ i t); [|done|];
              [intros x; rewrite past_w_unfold; destruct (past_send x); lia
              |rewrite past_w_unfold; unfold past_send; by rewrite Hp]).
    all: destruct (wg s); [lia|by eauto]. }
  destruct Hfire as [s' Hf]. exists s'. split; [done|].
  apply (inv_no_panic cli containers). by eapply fire_Inv.
Qed.

Lemma FetchContainerStatsParallel_tasks_never_wait_witness :
  exists s s',
    exec example_cli [example_gone; example_up]
      [AMain; AMain; AMain; AMain; ATask 1; ATask 1] init = Some s
    /\ fire example_cli [example_gone; example_up] (ATask 1) s = Some s'
    /\ main_pc s' <> MPanic.
Proof.
  destruct (exec example_cli [example_gone; example_up]
              [AMain; AMain; AMain; AMain; ATask 1; ATask 1] init)
    as [s|] eqn:He; [|vm_compute in He; discriminate].
  exists s.
  destruct (tasks s !! 1%nat) as [t|] eqn:Ht.
  2:{ vm_compute in He. injection He as <-. discriminate. }
  assert (Hpc : t_pc t <> TExited).
  { vm_compute in He. injection He as <-. injection Ht as <-. discriminate. }
  destruct (FetchContainerStatsParallel_tasks_never_wait
              example_cli [example_gone; example_up] _ s 1 t He Ht Hpc)
    as (s' & Hf & Hn).
  exists s'. split; [reflexivity|]. split; assumption.
Defined.

(** ** Every fetch can be in flight at once *)

(** The tasks the loop starts for the containers from index [k] on. *)
Lemma exec_spawn cli pre rest s :
  main_pc s = MRange (length pre) ->
  exec cli (pre ++ rest) (replicate (2 * length rest) AMain) s
  = Some {| main_pc := MRange (length pre + length rest);
            tasks := tasks s ++ imap (fun i c => {| t_i := length pre + i; t_c := c;
                                                   t_pc := TFetch |}) rest;
            closer_pc := closer_pc s; wg := wg s + length rest;
            statsChan := statsChan s; closed := closed s;
            results := results s; log := log s |}.
Proof.
  revert pre s. induction rest as [|c rest IH]; intros pre s Hm.
  - simpl. rewrite !Nat.add_0_r, app_nil_r. destruct s. simpl in *. by subst.
  - replace (2 * length (c :: rest))%nat with (S (S (2 * length rest))) by (simpl; lia).
    remember (2 * length rest)%nat as n eqn:Hn.
    assert (Hc : (pre ++ c :: rest) !! length pre = Some c).
    { rewrite lookup_app_r by lia. by rewrite Nat.sub_diag. }
    assert (H1 : fire cli (pre ++ c :: rest) AMain s
                 = Some {| main_pc := MGo (length pre) c; tasks := tasks s;
                           closer_pc := closer_pc s; wg := S (wg s);
                           statsChan := statsChan s; closed := closed s;
                           results := results s; log := log s |}).
    { unfold fire, step_main. by rewrite Hm, Hc. }
    change (replicate (S (S n)) AMain) with (AMain :: AMain :: replicate n AMain).
    cbn [exec]. rewrite H1. unfold fire at 1, step_main at 1. cbn [main_pc].
    replace (pre ++ c :: rest) with ((pre ++ [c]) ++ rest) by (by rewrite <- app_assoc).
    unfold step_main. cbn [main_pc]. subst n. rewrite IH by (simpl; rewrite length_app; simpl; f_equal; lia).
    simpl. rewrite length_app. simpl. f_equal. f_equal.
    + f_equal. lia.
    + rewrite <- app_assoc. f_equal. simpl. rewrite Nat.add_0_r. f_equal.
      apply imap_ext. intros i x _. simpl. f_equal. lia.
    + lia.
Qed.

(** [X19] Nothing bounds how many fetches run at once: whatever the
    number [N] of containers, the run in which the calling goroutine takes
    the first [2 N] steps reaches a state where all [N] tasks have been
    started and none has yet asked for its stats, the wait group standing
    at [N]. *)
Theorem FetchContainerStatsParallel_fan_out cli containers :
  exec cli containers (replicate (2 * length containers) AMain) init
  = Some {| main_pc := MRange (length containers);
            tasks := imap (fun i c => {| t_i := i; t_c := c; t_pc := TFetch |})
                       containers;
            closer_pc := CNotStarted; wg := length containers;
            statsChan := []; closed := false; results := []; log := [] |}.
Proof.
  exact (exec_spawn cli [] containers init eq_refl).
Qed.

(** ** The flags *)

Lemma PrintHelp_Done : exists out, PrintHelp = Done out tt.
Proof. by eexists. Qed.

Lemma PrintHeader_Done Sprintf action :
  exists out, PrintHeader Sprintf action = Done out tt.
Proof.
  unfold PrintHeader.
  destruct (String.eqb action "container"); [by eexists|].
  destruct (String.eqb action "image"); by eexists.
Qed.

(** [X20] [HandleFlagsForManipulation] returns to [main] in two cases
    only.  With none of [-h], [-s], [-i] given it prints nothing and
    returns the four flags.  With [-i] given and an image listing that
    fails it returns the nil slice, whatever the other flags, after the
    help and the stopped containers asked for and the header of the image
    table have been printed: the process does not exit then.  (The listing
    of the stopped containers is taken not to panic.) *)
Theorem HandleFlagsForManipulation_returns
    Sprintf red green cli ImageList v h s i flags :
  (s = true -> exists out, ListStoppedContainers Sprintf red green cli = Done out tt) ->
  (exists out, HandleFlagsForManipulation Sprintf red green cli ImageList v h s i
               = Done out (Flags flags))
  <-> (h = false /\ s = false /\ i = false /\ flags = [v; false; false; false]
       /\ HandleFlagsForManipulation Sprintf red green cli ImageList v h s i
          = Done [] (Flags flags))
      \/ (i = true /\ ImageList.2 <> None /\ flags = []).
Proof.
  intros Hs. unfold HandleFlagsForManipulation, HandleFlags.
  destruct (bool_decide ((h || s || i) = true)) eqn:He.
  2:{ apply bool_decide_eq_false in He.
      destruct h, s, i; try (by destruct He). simpl. split.
      - intros [out [= <- <-]]. by left.
      - intros [(_ & _ & _ & -> & _)|(? & _)]; [by eexists|done]. }
  assert (Hhelp : exists out1,
            (if h then PrintHelp else mret tt) = Done out1 tt).
  { destruct h; [apply PrintHelp_Done|by eexists]. }
  assert (Hstop : exists out2,
            (if s then ListStoppedContainers Sprintf red green cli else mret tt)
            = Done out2 tt).
  { destruct s; [by apply Hs|by eexists]. }
  destruct Hhelp as [out1 Hhelp], Hstop as [out2 Hstop].
  destruct (PrintHeader_Done Sprintf "image") as [out3 Hhead].
  cbn [index lookup list_lookup mbind Run_mbind Run_bind app].
  rewrite Hhelp, Hstop. cbn [Run_bind app].
  destruct i.
  2:{ simpl. split; [by intros [out [=]]|].
      intros [(-> & -> & _)|(? & _)]; [|done].
      by apply bool_decide_eq_true in He. }
  rewrite Hhead. cbn [Run_bind app].
  destruct ImageList as [images [err|]]; simpl.
  - split.
    + intros [out [= _ <-]]. right. by split.
    + intros [(_ & _ & ? & _)|(_ & _ & ->)]; [done|]. by eexists.
  - split.
    + intros [out H]. destruct (ListImages_range Sprintf images); by simplify_eq/=.
    + intros [(_ & _ & ? & _)|(_ & ? & _)]; done.
Qed.

Lemma HandleFlagsForManipulation_returns_witness :
  (exists out,
     HandleFlagsForManipulation example_Sprintf id id example_down
       ([], Some "Cannot connect to the Docker daemon") false true true true
     = Done out (Flags []))
  <-> (true = false /\ true = false /\ true = false
       /\ [] = [false; false; false; false]
       /\ HandleFlagsForManipulation example_Sprintf id id example_down
            ([], Some "Cannot connect to the Docker daemon") false true true true
          = Done [] (Flags []))
      \/ (true = true
          /\ ([] : list image.Summary, Some "Cannot connect to the Docker daemon").2
             <> None
          /\ [] = ([] : list bool)).
Proof.
  apply (HandleFlagsForManipulation_returns example_Sprintf id id example_down
           ([], Some "Cannot connect to the Docker daemon") false true true true []).
  intros _. eexists. vm_compute. reflexivity.
Defined.
